(** * Simplicial complexes and chain message passing

    A shallow embedding of [data_exploration/data.py] (classes [Chain] and
    [Complex]) together with the message-passing primitive exercised by
    [mp/test_smp.py].

    Conventions.
    - A 2-D tensor is the list of its rows; a 1-D [LongTensor] is a [list Z].
    - An adjacency index is a tensor of shape [2, n].  The code only ever
      reads it through [index.numpy().T], i.e. column by column, so it is
      kept as the list of its [n] columns [(a, b)].
    - Python exceptions are values of [exn]; a computation that may raise
      lives in the [result] monad.
    - Feature entries and labels are never inspected by [data.py]: they are
      type parameters [scalar] and [label]. *)

From stdpp Require Import gmap list sorting strings.
From Stdlib Require Import ZArith Lia.

Local Open Scope Z_scope.

(** ** Exceptions and the error monad *)

Inductive exn : Set :=
  | AttributeError
  | TypeError
  | IndexError
  | KeyError
  | RuntimeError
  | NotImplementedError.

Inductive result (A : Type) : Type :=
  | Ok (a : A)
  | Raise (e : exn).

Arguments Ok {A} a.
Arguments Raise {A} e.

#[global] Instance result_ret : MRet result := @Ok.

#[global] Instance result_bind : MBind result :=
  fun A B f m => match m with Ok a => f a | Raise e => Raise e end.

#[global] Instance exn_eq_dec : EqDecision exn.
Proof. solve_decision. Defined.

Definition raises {A} (r : result A) : Prop := exists e, r = Raise e.

(** [o.attr] on a value that may be [None]: [None] has no attributes. *)
Definition attr {A} (o : option A) : result A :=
  match o with Some a => Ok a | None => Raise AttributeError end.

(** [o[k]] on a value that may be [None]: [None] is not subscriptable. *)
Definition subscriptable {A} (o : option A) : result A :=
  match o with Some a => Ok a | None => Raise TypeError end.

(** [d[k]] on a dict. *)
Definition dict_getitem `{Countable K} {V} (d : gmap K V) (k : K) : result V :=
  match d !! k with Some v => Ok v | None => Raise KeyError end.

(** [t[i]] on a tensor, for an integer [i]: indices count from the end when
    negative and raise outside [-n, n). *)
Definition tensor_getitem {A} (t : list A) (i : Z) : result A :=
  let n := Z.of_nat (length t) in
  let j := if decide (i < 0) then i + n else i in
  if decide (0 <= j < n) then
    match t !! Z.to_nat j with Some a => Ok a | None => Raise IndexError end
  else Raise IndexError.

(** [range(lo, hi)]. *)
Definition range (lo hi : Z) : list Z :=
  (fun i => lo + Z.of_nat i) <$> seq 0 (Z.to_nat (hi - lo)).

(** A [for] loop over [l] that threads the loop state [s] and stops at the
    first exception. *)
Fixpoint for_each {A S : Type} (body : S -> A -> result S) (s : S) (l : list A)
  : result S :=
  match l with
  | [] => Ok s
  | a :: l' => s' ← body s a; for_each body s' l'
  end.

(** [torch.index_select(input, 0, index)]: one row of [input] per entry of
    [index]; an entry outside [0, n) raises (negative entries do not wrap). *)
Fixpoint index_select {A} (input : list A) (index : list Z) : result (list A) :=
  match index with
  | [] => Ok []
  | i :: index' =>
      if decide (0 <= i < Z.of_nat (length input)) then
        match input !! Z.to_nat i with
        | Some row => rows ← index_select input index'; Ok (row :: rows)
        | None => Raise IndexError
        end
      else Raise IndexError
  end.

(** [tuple(sorted(set(ra) & set(rb)))]. *)
Definition sorted_intersection (ra rb : list Z) : list Z :=
  let nodes_a : gset Z := list_to_set ra in
  let nodes_b : gset Z := list_to_set rb in
  merge_sort Z.le (elements (nodes_a ∩ nodes_b)).

(** ** [class Chain] *)

Module Chain.
Section Chain.
Context {scalar label : Type}.

Record t : Type := mk {
  order : Z;
    x : option (list (list scalar));
    upper_index : option (list (Z * Z));
    lower_index : option (list (Z * Z));
    y : option label;
    mapping : option (list (list Z));
    upper_adjs : option (gmap (list Z) (gmap (list Z) (list Z)));
    oriented : bool;
    _hodge_laplacian : option (list (list scalar))
  }.

(** [Chain.__init__]; every argument but [order] defaults to [None]. *)
Definition __init__ (order : Z) (x : option (list (list scalar)))
      (upper_index lower_index : option (list (Z * Z))) (y : option label)
      (mapping : option (list (list Z)))
      (upper_adjs : option (gmap (list Z) (gmap (list Z) (list Z)))) : t :=
    {| order := order; x := x; upper_index := upper_index;
       lower_index := lower_index; y := y; mapping := mapping;
       upper_adjs := upper_adjs; oriented := false;
       _hodge_laplacian := None |}.

Definition orient (self : t) : result t := Raise NotImplementedError.
Definition get_hodge_laplacian (self : t) : result (list (list scalar)) :=
    Raise NotImplementedError.
Definition initialize_features (self : t) : result t :=
    Raise NotImplementedError.
End Chain.
Arguments t : clear implicits.
End Chain.

(** ** [class Complex] *)

Module Complex.
Section Complex.
Context {scalar label : Type}.

#[local] Abbreviation chain := (Chain.t scalar label).

(** The attributes of a [Complex] object.  [shared_faces] and
    [shared_cofaces] do not exist until [_consolidate] has assigned them. *)
Record t : Type := mk {
  nodes : chain;
  edges : chain;
  triangles : chain;
  chains : gmap Z chain;
  min_order : Z;
  max_order : Z;
  y : option label;
  shared_faces : option (gmap Z (list Z));
  shared_cofaces : option (gmap Z (list Z))
}.

(** [_consolidate], lines 101-102: the reverse mapping of one chain. *)
Definition rev_mapping (current_map : list (list Z)) : result (gmap (list Z) Z) :=
  for_each
    (fun (current_rev_map : gmap (list Z) Z) key =>
       row ← tensor_getitem current_map key;
       Ok (<[row := key]> current_rev_map))
    ∅ (range 0 (Z.of_nat (length current_map))).

(** [_consolidate], lines 97-103. *)
Definition rev_mappings (self : t) : result (gmap Z (gmap (list Z) Z)) :=
  for_each
    (fun (rev_mappings : gmap Z (gmap (list Z) Z)) order =>
       c ← dict_getitem (chains self) order;
       current_map ← attr (Chain.mapping c);
       current_rev_map ← rev_mapping current_map;
       Ok (<[order := current_rev_map]> rev_mappings))
    ∅ (range (min_order self) (max_order self + 1)).

(** [_consolidate], lines 112-115: the body of the loop over lower links. *)
Definition shared_face (rev_mappings : gmap Z (gmap (list Z) Z)) (order : Z)
    (upper_chain : chain) (link : Z * Z) : result Z :=
  let '(a, b) := link in
  m ← subscriptable (Chain.mapping upper_chain);
  nodes_a ← tensor_getitem m a;
  m ← subscriptable (Chain.mapping upper_chain);
  nodes_b ← tensor_getitem m b;
  rev ← dict_getitem rev_mappings order;
  dict_getitem rev (sorted_intersection nodes_a nodes_b).

(** [_consolidate], lines 122-125: the body of the loop over upper links. *)
Definition shared_coface (rev_mappings : gmap Z (gmap (list Z) Z)) (order : Z)
    (current_chain : chain) (link : Z * Z) : result Z :=
  let '(a, b) := link in
  m ← subscriptable (Chain.mapping current_chain);
  nodes_a ← tensor_getitem m a;
  m ← subscriptable (Chain.mapping current_chain);
  nodes_b ← tensor_getitem m b;
  rev ← dict_getitem rev_mappings (order + 1);
  adjs ← subscriptable (Chain.upper_adjs current_chain);
  adjs_a ← dict_getitem adjs nodes_a;
  coface ← dict_getitem adjs_a nodes_b;
  dict_getitem rev coface.

(** A loop of the shape [shared = list(); for link in index: shared.append(f(link))]. *)
Definition collect (f : Z * Z -> result Z) (index : list (Z * Z)) : result (list Z) :=
  for_each (fun shared link => id ← f link; Ok (shared ++ [id])) [] index.

(** [_consolidate], lines 105-127: the two tables, one pass per order. *)
Definition tables (self : t) (rev_mappings : gmap Z (gmap (list Z) Z))
  : result (gmap Z (list Z) * gmap Z (list Z)) :=
  for_each
    (fun (st : gmap Z (list Z) * gmap Z (list Z)) order =>
       let '(shared_faces, shared_cofaces) := st in
       upper_chain ← dict_getitem (chains self) (order + 1);
       lower ← attr (Chain.lower_index upper_chain);
       shared ← collect (shared_face rev_mappings order upper_chain) lower;
       let shared_faces := <[order + 1 := shared]> shared_faces in
       current_chain ← dict_getitem (chains self) order;
       upper ← attr (Chain.upper_index current_chain);
       shared ← collect (shared_coface rev_mappings order current_chain) upper;
       let shared_cofaces := <[order := shared]> shared_cofaces in
       Ok (shared_faces, shared_cofaces))
    (∅, ∅) (range (min_order self) (max_order self)).

Definition _consolidate (self : t) : result t :=
  rev_mappings ← rev_mappings self;
  st ← tables self rev_mappings;
  Ok {| nodes := nodes self; edges := edges self; triangles := triangles self;
        chains := chains self; min_order := min_order self;
        max_order := max_order self; y := y self;
        shared_faces := Some st.1; shared_cofaces := Some st.2 |}.

Definition __init__ (nodes edges triangles : chain) (y : option label) : result t :=
  _consolidate
    {| nodes := nodes; edges := edges; triangles := triangles;
       chains := <[2 := triangles]> (<[1 := edges]> (<[0 := nodes]> ∅));
       min_order := 0; max_order := 2; y := y;
       shared_faces := None; shared_cofaces := None |}.

(** The tuple returned by [get_inputs]. *)
Record inputs : Type := mk_inputs {
  in_x : option (list (list scalar));
  in_upper_index : option (list (Z * Z));
  in_upper_features : option (list (list scalar));
  in_lower_index : option (list (Z * Z));
  in_lower_features : option (list (list scalar))
}.

(** Lines 144-147 and 153-155: the neighbouring chain's features gathered
    through a table of shared ids. *)
Definition gather (features : option (list (list scalar)))
    (table : option (gmap Z (list Z))) (order : Z)
  : result (option (list (list scalar))) :=
  match features with
  | Some f =>
      tbl ← attr table;
      index ← dict_getitem tbl order;
      rows ← index_select f index;
      Ok (Some rows)
  | None => Ok None
  end.

Definition get_inputs (self : t) (order : Z) : result inputs :=
  match chains self !! order with
  | Some simplices =>
      let x := Chain.x simplices in
      up ← (if decide (order < max_order self) then
              let upper_index := Chain.upper_index simplices in
              c ← dict_getitem (chains self) (order + 1);
              upper_features ← gather (Chain.x c) (shared_cofaces self) order;
              Ok (upper_index, upper_features)
            else Ok (None, None));
      down ← (if decide (order > min_order self) then
                let lower_index := Chain.lower_index simplices in
                c ← dict_getitem (chains self) (order - 1);
                lower_features ← gather (Chain.x c) (shared_faces self) order;
                Ok (lower_index, lower_features)
              else Ok (None, None));
      Ok {| in_x := x; in_upper_index := up.1; in_upper_features := up.2;
            in_lower_index := down.1; in_lower_features := down.2 |}
  | None => Raise NotImplementedError
  end.

(** [get_labels(order=None)]; the labels of a chain may themselves be [None]. *)
Definition get_labels (self : t) (order : option Z) : result (option label) :=
  match order with
  | None => Ok (y self)
  | Some order =>
      match chains self !! order with
      | Some c => Ok (Chain.y c)
      | None => Raise NotImplementedError
      end
  end.

End Complex.
Arguments t : clear implicits.
Arguments inputs : clear implicits.
End Complex.

(** ** The chain message-passing engine

    [mp/smp.py] is not part of the sources; only its test file
    [mp/test_smp.py] is.  The engine below follows the contract of the
    specification (section 4.2).  Scalars are a parameter with their zero and
    addition, so that no law of the arithmetic is assumed. *)

Module ChainMessagePassing.
Section Engine.
Context {scalar : Type} (zero : scalar) (add : scalar -> scalar -> scalar).

(** The pluggable combinator of a source feature row with an edge attribute
    row. *)
Context (combine : list scalar -> list scalar -> list scalar).

(** Modelled from the spec: the engine object of the missing [mp/smp.py];
    construction takes the channel widths of the two message kinds. *)
Record t : Type := mk {
  up_msg_size : nat;
  down_msg_size : nat
}.

(** Modelled from the spec: the constructor of the missing
    [ChainMessagePassing] class. *)
Definition __init__ (up_msg_size down_msg_size : nat) : t :=
  {| up_msg_size := up_msg_size; down_msg_size := down_msg_size |}.

(** Modelled from the spec: the zero vector of a message width, which the
    missing engine gives to a simplex that receives no message. *)
Definition zeros (width : nat) : list scalar := replicate width zero.

(** Modelled from the spec: the sum of two message rows in the missing
    engine's aggregation. *)
Definition vadd (u v : list scalar) : list scalar := zip_with add u v.

(** Entrywise sum of two tensors of the same shape, as in [up_msg + down_msg]. *)
Definition tensor_add (s t : list (list scalar)) : list (list scalar) :=
  zip_with vadd s t.

(** Modelled from the spec: how the missing engine reads row [i] of a tensor;
    an index outside [0, n) names no simplex, is outside the contract, and
    raises. *)
Definition row {A} (t : list A) (i : Z) : result A :=
  if decide (0 <= i < Z.of_nat (length t)) then
    match t !! Z.to_nat i with Some a => Ok a | None => Raise IndexError end
  else Raise IndexError.

(** Modelled from the spec: the message of the missing engine along one
    directed edge: the source feature row when no edge attribute is
    supplied, its combination with the attribute row at the same position
    otherwise. *)
Definition message (x_j : list scalar) (attr : option (list scalar)) : list scalar :=
  match attr with
  | None => x_j
  | Some a => combine x_j a
  end.

(** Modelled from the spec: the message computed by the missing engine for the
    edge at position [pos] with source [src]; a message whose width is not
    the declared width of its kind is outside the contract and raises. *)
Definition edge_message (width : nat) (x : list (list scalar))
    (attr : option (list (list scalar))) (pos : nat) (src : Z)
  : result (list scalar) :=
  x_j ← row x src;
  a ← match attr with
      | None => Ok None
      | Some rows => r ← row rows (Z.of_nat pos); Ok (Some r)
      end;
  let m := message x_j a in
  if decide (length m = width) then Ok m else Raise RuntimeError.

(** Modelled from the spec: one step of the summation of the missing engine:
    the message is added to the row of its destination. *)
Definition scatter_add (out : list (list scalar)) (dst : Z) (m : list scalar)
  : result (list (list scalar)) :=
  r ← row out dst;
  Ok (<[Z.to_nat dst := vadd r m]> out).

(** The edges of an index with their positions. *)
Definition enumerate {A} (l : list A) : list (nat * A) := imap pair l.

(** Modelled from the spec: the aggregation of the missing engine for one
    adjacency: one row per simplex of [x], all-zero when the index is absent,
    otherwise the sum of the incoming messages of each destination. *)
Definition aggregate (width : nat) (index : option (list (Z * Z)))
    (x : list (list scalar)) (attr : option (list (list scalar)))
  : result (list (list scalar)) :=
  let out := replicate (length x) (zeros width) in
  match index with
  | None => Ok out
  | Some edges =>
      for_each
        (fun out (e : nat * (Z * Z)) =>
           m ← edge_message width x attr e.1 e.2.1;
           scatter_add out e.2.2 m)
        out (enumerate edges)
  end.

(** Modelled from the spec: [propagate] of the missing [mp/smp.py]. *)
Definition propagate (self : t) (up_index down_index : option (list (Z * Z)))
    (x : list (list scalar)) (up_attr down_attr : option (list (list scalar)))
  : result (list (list scalar) * list (list scalar)) :=
  up_msg ← aggregate (up_msg_size self) up_index x up_attr;
  down_msg ← aggregate (down_msg_size self) down_index x down_attr;
  Ok (up_msg, down_msg).

(** The edges of an index that point to simplex [i], with their positions. *)
Definition incoming (edges : list (Z * Z)) (i : nat) : list (nat * (Z * Z)) :=
  filter (fun e : nat * (Z * Z) => e.2.2 = Z.of_nat i) (enumerate edges).

(** Simplex [i] receives no message along an adjacency. *)
Definition isolated (index : option (list (Z * Z))) (i : nat) : Prop :=
  match index with
  | None => True
  | Some edges => incoming edges i = []
  end.

(** The sum of a list of message rows, in the order of the edges. *)
Definition sum_rows (width : nat) (msgs : list (list scalar)) : list scalar :=
  foldl vadd (zeros width) msgs.

(** [r] is the sum of the messages of all edges of [index] that point to
    simplex [i], each edge counted once per occurrence. *)
Definition sums_incoming (width : nat) (x : list (list scalar))
    (attr : option (list (list scalar))) (index : option (list (Z * Z)))
    (i : nat) (r : list scalar) : Prop :=
  match index with
  | None => r = zeros width
  | Some edges =>
      exists msgs,
        Forall2 (fun (e : nat * (Z * Z)) m =>
                   edge_message width x attr e.1 e.2.1 = Ok m)
                (incoming edges i) msgs /\
        r = sum_rows width msgs
  end.

(** Every edge of a present index ends at a simplex of [x] and carries a
    message that the engine can compute. *)
Definition well_formed (width : nat) (x : list (list scalar))
    (attr : option (list (list scalar))) (index : option (list (Z * Z))) : Prop :=
  match index with
  | None => True
  | Some edges =>
      forall e, e ∈ enumerate edges ->
        0 <= e.2.2 < Z.of_nat (length x) /\
        exists m, edge_message width x attr e.1 e.2.1 = Ok m
  end.

End Engine.

(** The policy "message = source feature". *)
Definition source_feature {scalar : Type} (x_j attr : list scalar) : list scalar := x_j.

(** An adjacency index given by its two rows, as in the tests. *)
Definition index_of_rows (src dst : list Z) : list (Z * Z) := zip src dst.

End ChainMessagePassing.

(** ** [class FlowDataset] ([data/datasets/flow.py])

    The base class [InMemoryComplexDataset] and the generator
    [load_flow_dataset] are not part of the sources.  What the code takes
    from them is a parameter here: the generator itself, and the list
    [processed_paths] that the base class derives from
    [processed_file_names].  The file system is a finite map from paths to
    pickled objects; [pickle.load] gives back the object that [pickle.dump]
    stored.  Integers are those of 64-bit CPython: a list holds fewer than
    [2^63] items.  Exhaustion of memory below that bound is outside the
    model. *)

Module FlowDataset.

Inductive error : Set :=
  | IndexError
  | FileNotFoundError
  | OverflowError.

Inductive io (A : Type) : Type :=
  | Done (a : A)
  | Fail (e : error).

Arguments Done {A} a.
Arguments Fail {A} e.

#[global] Instance io_ret : MRet io := @Done.

#[global] Instance io_bind : MBind io :=
  fun A B f m => match m with Done a => f a | Fail e => Fail e end.

Section FlowDataset.
Context {complex graph : Type}.

(** The objects that the code pickles: the list of complexes and the graph. *)
Inductive obj : Type :=
  | ComplexList (chains : list complex)
  | Graph (G : graph).

(** [load_flow_dataset(num_points=..., num_train=..., num_test=...)]. *)
Context (load_flow_dataset : Z -> Z -> Z -> list complex * list complex * graph).

(** The attributes that [__init__] assigns before it calls the base-class
    constructor; [process] reads them. *)
Record config : Type := mk_config {
  name : string;
  _num_classes : Z;
  _num_points : Z;
  _train_samples : Z;
  _val_samples : Z
}.

(** The attributes of a constructed [FlowDataset]. *)
Record t : Type := mk {
  attrs : config;
  _data_list : obj;
  G : option obj;
  train_ids : list Z;
  val_ids : list Z;
  test_ids : option (list Z)
}.

(** [paths[i]] on a Python list, for a literal index [i >= 0]. *)
Definition getitem (paths : list string) (i : nat) : io string :=
  match paths !! i with Some p => Done p | None => Fail IndexError end.

(** [with open(path, 'rb') as handle: pickle.load(handle)]. *)
Definition load (fs : gmap string obj) (path : string) : io obj :=
  match fs !! path with Some o => Done o | None => Fail FileNotFoundError end.

(** [with open(path, 'wb') as handle: pickle.dump(o, handle)]: the file is
    created or overwritten. *)
Definition dump (fs : gmap string obj) (path : string) (o : obj) : gmap string obj :=
  <[path := o]> fs.

(** [list(range(start, stop))]: the list is built only when the length of
    the range, [max(0, stop - start)], fits a signed 64-bit size; from
    [2^63] items on, [list] raises [OverflowError]. *)
Definition list_range (start stop : Z) : io (list Z) :=
  if decide (2 ^ 63 <= stop - start) then Fail OverflowError
  else Done (range start stop).

(** The property [processed_file_names]. *)
Definition processed_file_names (self : config) : list string :=
  [name self +:+ "_complex_list.pkl"; name self +:+ "_graph.pkl"].

(** [process]: generate the data and write the two cache files. *)
Definition process (self : config) (processed_paths : list string)
    (fs : gmap string obj) : io (gmap string obj) :=
  let '(train, val, G) :=
    load_flow_dataset (_num_points self) (_train_samples self) (_val_samples self) in
  let chains := train ++ val in
  path ← getitem processed_paths 0;
  let fs := dump fs path (ComplexList chains) in
  graph_path ← getitem processed_paths 1;
  let fs := dump fs graph_path (Graph G) in
  Done fs.

(** The attributes assigned before [super().__init__]. *)
Definition init_config (name : string) (num_points train_samples val_samples : Z)
  : config :=
  {| name := name; _num_classes := 2; _num_points := num_points;
     _train_samples := train_samples; _val_samples := val_samples |}.

(** [__init__], from the return of the base-class constructor on:
    [processed_paths] and [fs] are the paths and the file system that the
    base class leaves. *)
Definition __init__ (processed_paths : list string) (fs : gmap string obj)
    (name : string) (num_points train_samples val_samples : Z)
    (load_graph : bool) : io t :=
  let self := init_config name num_points train_samples val_samples in
  path ← getitem processed_paths 0;
  _data_list ← load fs path;
  G ← (if load_graph then
         graph_path ← getitem processed_paths 1;
         g ← load fs graph_path;
         Done (Some g)
       else Done None);
  train_ids ← list_range 0 train_samples;
  val_ids ← list_range train_samples (train_samples + val_samples);
  Done {| attrs := self; _data_list := _data_list; G := G;
          train_ids := train_ids; val_ids := val_ids; test_ids := None |}.

End FlowDataset.
Arguments obj : clear implicits.
Arguments t : clear implicits.
End FlowDataset.

(** ** Specification predicates *)

Section Specification.
Context {scalar label : Type}.

#[local] Abbreviation chain := (Chain.t scalar label).

(** [k] is the last row index of the mapping tensor [m] whose row, exactly as
    stored, is [key]. *)
Definition last_row (m : list (list Z)) (key : list Z) (k : Z) : Prop :=
  0 <= k /\ m !! Z.to_nat k = Some key /\
  forall j : nat, (Z.to_nat k < j)%nat -> m !! j <> Some key.

(** The reverse mapping [r] is keyed by the rows of [m] as they are stored. *)
Definition keyed_by_stored_rows (m : list (list Z)) (r : gmap (list Z) Z) : Prop :=
  forall key k, r !! key = Some k <-> last_row m key k.

(** [id] is the simplex found under the sorted intersection of the node sets
    of the two ends of [link]. *)
Definition face_entry (rev : gmap (list Z) Z) (m : list (list Z))
    (link : Z * Z) (id : Z) : Prop :=
  exists nodes_a nodes_b,
    tensor_getitem m link.1 = Ok nodes_a /\
    tensor_getitem m link.2 = Ok nodes_b /\
    rev !! sorted_intersection nodes_a nodes_b = Some id.

(** [id] is the simplex found under [upper_adjs[nodes_a][nodes_b]] for the
    two ends of [link]. *)
Definition coface_entry (rev : gmap (list Z) Z) (m : list (list Z))
    (upper_adjs : option (gmap (list Z) (gmap (list Z) (list Z))))
    (link : Z * Z) (id : Z) : Prop :=
  exists nodes_a nodes_b adjs adjs_a coface,
    tensor_getitem m link.1 = Ok nodes_a /\
    tensor_getitem m link.2 = Ok nodes_b /\
    upper_adjs = Some adjs /\
    adjs !! nodes_a = Some adjs_a /\
    adjs_a !! nodes_b = Some coface /\
    rev !! coface = Some id.

(** Everything a successful [Complex.__init__] establishes. *)
Definition consolidated (n e t : chain) (y : option label)
    (c : Complex.t scalar label) : Prop :=
  exists m0 m1 m2 r0 r1 r2 L1 L2 U0 U1 sf1 sf2 sc0 sc1,
    Chain.mapping n = Some m0 /\ Chain.mapping e = Some m1 /\
    Chain.mapping t = Some m2 /\
    Complex.rev_mapping m0 = Ok r0 /\ Complex.rev_mapping m1 = Ok r1 /\
    Complex.rev_mapping m2 = Ok r2 /\
    Chain.lower_index e = Some L1 /\ Chain.lower_index t = Some L2 /\
    Chain.upper_index n = Some U0 /\ Chain.upper_index e = Some U1 /\
    Forall2 (face_entry r0 m1) L1 sf1 /\
    Forall2 (coface_entry r1 m0 (Chain.upper_adjs n)) U0 sc0 /\
    Forall2 (face_entry r1 m2) L2 sf2 /\
    Forall2 (coface_entry r2 m1 (Chain.upper_adjs e)) U1 sc1 /\
    c = {| Complex.nodes := n; Complex.edges := e; Complex.triangles := t;
           Complex.chains := <[2 := t]> (<[1 := e]> (<[0 := n]> ∅));
           Complex.min_order := 0; Complex.max_order := 2; Complex.y := y;
           Complex.shared_faces := Some (<[2 := sf2]> (<[1 := sf1]> ∅));
           Complex.shared_cofaces := Some (<[1 := sc1]> (<[0 := sc0]> ∅)) |}.

(** The table [shared_faces[k + 1]] lists, edge by edge of the lower index of
    the chain of order [k + 1], the simplex of order [k] found for that edge. *)
Definition faces_aligned (c : Complex.t scalar label) (k : Z) : Prop :=
  exists lo up m_lo m_up r L sf,
    Complex.chains c !! k = Some lo /\ Complex.chains c !! (k + 1) = Some up /\
    Chain.mapping lo = Some m_lo /\ Chain.mapping up = Some m_up /\
    Complex.rev_mapping m_lo = Ok r /\ keyed_by_stored_rows m_lo r /\
    Chain.lower_index up = Some L /\
    Complex.shared_faces c ≫= (.!! (k + 1)) = Some sf /\
    Forall2 (face_entry r m_up) L sf.

(** The table [shared_cofaces[k]] lists, edge by edge of the upper index of
    the chain of order [k], the simplex of order [k + 1] found for that edge. *)
Definition cofaces_aligned (c : Complex.t scalar label) (k : Z) : Prop :=
  exists lo up m_lo m_up r U sc,
    Complex.chains c !! k = Some lo /\ Complex.chains c !! (k + 1) = Some up /\
    Chain.mapping lo = Some m_lo /\ Chain.mapping up = Some m_up /\
    Complex.rev_mapping m_up = Ok r /\ keyed_by_stored_rows m_up r /\
    Chain.upper_index lo = Some U /\
    Complex.shared_cofaces c ≫= (.!! k) = Some sc /\
    Forall2 (coface_entry r m_lo (Chain.upper_adjs lo)) U sc.

(** Some lower link of [up] has a computed face that is no key of the
    reverse mapping of [lo]. *)
Definition missing_face (lo up : chain) : Prop :=
  exists m_lo m_up r L link nodes_a nodes_b,
    Chain.mapping lo = Some m_lo /\ Chain.mapping up = Some m_up /\
    Complex.rev_mapping m_lo = Ok r /\
    Chain.lower_index up = Some L /\ link ∈ L /\
    tensor_getitem m_up link.1 = Ok nodes_a /\
    tensor_getitem m_up link.2 = Ok nodes_b /\
    r !! sorted_intersection nodes_a nodes_b = None.

(** Some upper link of [lo] has a coface in [upper_adjs] that is no key of
    the reverse mapping of [up]. *)
Definition missing_coface (lo up : chain) : Prop :=
  exists m_lo m_up r U link nodes_a nodes_b adjs adjs_a coface,
    Chain.mapping lo = Some m_lo /\ Chain.mapping up = Some m_up /\
    Complex.rev_mapping m_up = Ok r /\
    Chain.upper_index lo = Some U /\ link ∈ U /\
    tensor_getitem m_lo link.1 = Ok nodes_a /\
    tensor_getitem m_lo link.2 = Ok nodes_b /\
    Chain.upper_adjs lo = Some adjs /\
    adjs !! nodes_a = Some adjs_a /\
    adjs_a !! nodes_b = Some coface /\
    r !! coface = None.

Definition inconsistent (n e t : chain) : Prop :=
  missing_face n e \/ missing_coface n e \/ missing_face e t \/ missing_coface e t.

(** The fields that [_consolidate] reads on every path: [upper_adjs] is read
    only inside the loop over the upper links. *)
Definition required_present (n e t : chain) : Prop :=
  is_Some (Chain.mapping n) /\ is_Some (Chain.mapping e) /\
  is_Some (Chain.mapping t) /\
  is_Some (Chain.lower_index e) /\ is_Some (Chain.lower_index t) /\
  is_Some (Chain.upper_index n) /\ is_Some (Chain.upper_index e) /\
  (Chain.upper_index n <> Some [] -> is_Some (Chain.upper_adjs n)) /\
  (Chain.upper_index e <> Some [] -> is_Some (Chain.upper_adjs e)).

(** A computation that does not raise the unsupported-order error. *)
Definition never_unsupported {A} (r : result A) : Prop :=
  r <> Raise NotImplementedError.

(** A present feature matrix has a row for every simplex of the chain. *)
Definition rows_cover (ch : chain) : Prop :=
  forall f m, Chain.x ch = Some f -> Chain.mapping ch = Some m ->
    (length m <= length f)%nat.

(** [out] holds the rows of [features] selected by [table], one per edge of
    [index]; it is [None] when the features are absent. *)
Definition gathered (features : option (list (list scalar)))
    (index : option (list (Z * Z))) (table : list Z)
    (out : option (list (list scalar))) : Prop :=
  match features with
  | Some f =>
      exists rows edges,
        out = Some rows /\ index = Some edges /\ length rows = length edges /\
        Forall2 (fun id row => 0 <= id /\ f !! Z.to_nat id = Some row) table rows
  | None => out = None
  end.

Definition upper_inputs (c : Complex.t scalar label) (order : Z)
    (r : Complex.inputs scalar) : Prop :=
  if decide (order < Complex.max_order c) then
    exists ch up table,
      Complex.chains c !! order = Some ch /\
      Complex.chains c !! (order + 1) = Some up /\
      Complex.shared_cofaces c ≫= (.!! order) = Some table /\
      Complex.in_upper_index r = Chain.upper_index ch /\
      is_Some (Complex.in_upper_index r) /\
      gathered (Chain.x up) (Complex.in_upper_index r) table
        (Complex.in_upper_features r)
  else Complex.in_upper_index r = None /\ Complex.in_upper_features r = None.

Definition lower_inputs (c : Complex.t scalar label) (order : Z)
    (r : Complex.inputs scalar) : Prop :=
  if decide (order > Complex.min_order c) then
    exists ch down table,
      Complex.chains c !! order = Some ch /\
      Complex.chains c !! (order - 1) = Some down /\
      Complex.shared_faces c ≫= (.!! order) = Some table /\
      Complex.in_lower_index r = Chain.lower_index ch /\
      is_Some (Complex.in_lower_index r) /\
      gathered (Chain.x down) (Complex.in_lower_index r) table
        (Complex.in_lower_features r)
  else Complex.in_lower_index r = None /\ Complex.in_lower_features r = None.

End Specification.

(** ** When the construction succeeds *)

Section Constructible.
Context {scalar label : Type}.

#[local] Abbreviation chain := (Chain.t scalar label).

(** Every read of [_consolidate] succeeds: the fields it subscripts are
    present, every lower link has its face and every upper link its coface
    in the reverse mapping it is looked up in. *)
Definition constructible (n e t : chain) : Prop :=
  exists m0 m1 m2 r0 r1 r2 L1 L2 U0 U1,
    Chain.mapping n = Some m0 /\ Chain.mapping e = Some m1 /\
    Chain.mapping t = Some m2 /\
    Complex.rev_mapping m0 = Ok r0 /\ Complex.rev_mapping m1 = Ok r1 /\
    Complex.rev_mapping m2 = Ok r2 /\
    Chain.lower_index e = Some L1 /\ Chain.lower_index t = Some L2 /\
    Chain.upper_index n = Some U0 /\ Chain.upper_index e = Some U1 /\
    Forall (fun link => exists id, face_entry r0 m1 link id) L1 /\
    Forall (fun link => exists id, coface_entry r1 m0 (Chain.upper_adjs n) link id) U0 /\
    Forall (fun link => exists id, face_entry r1 m2 link id) L2 /\
    Forall (fun link => exists id, coface_entry r2 m1 (Chain.upper_adjs e) link id) U1.

End Constructible.

(** ** What the constructor of a flow dataset reads *)

Section CacheFiles.
Context {complex graph : Type}.


End CacheFiles.

(** ** Test data *)

Module TestData.
Import ChainMessagePassing.

(** The engine of the tests: integer-valued features, messages equal to the
    source feature. *)
Definition cmp : ChainMessagePassing.t := ChainMessagePassing.__init__ 1 1.

Definition run (up_index down_index : option (list (Z * Z))) (x : list (list Z))
    (up_attr down_attr : option (list (list Z)))
  : result (list (list Z) * list (list Z)) :=
  propagate 0 Z.add source_feature cmp up_index down_index x up_attr down_attr.

(** [test_propagate_in_cmp]: the house graph at the edge level. *)
Definition house_up_index : list (Z * Z) :=
  index_of_rows [0; 1; 0; 2; 1; 2] [1; 0; 2; 0; 2; 1].
Definition house_up_attr : list (list Z) := [[1]; [1]; [2]; [2]; [3]; [3]].
Definition house_down_index : list (Z * Z) :=
  index_of_rows [0; 1; 0; 2; 1; 2; 2; 3; 3; 4; 4; 5; 2; 5; 0; 3; 1; 5]
                [1; 0; 2; 0; 2; 1; 3; 2; 4; 3; 5; 4; 5; 2; 3; 0; 5; 1].
Definition house_down_attr : list (list Z) :=
  [[1]; [1]; [2]; [2]; [3]; [3]; [4]; [4]; [5]; [5]; [6]; [6]; [7]; [7]; [8]; [8];
   [9]; [9]].
Definition house_x : list (list Z) := [[1]; [2]; [3]; [4]; [5]; [6]].

(** [test_propagate_at_triangle_level_in_cmp]: two triangles sharing an edge. *)
Definition two_triangles_down_index : list (Z * Z) := index_of_rows [0; 1] [1; 0].
Definition two_triangles_down_attr : list (list Z) := [[1]; [1]].
Definition two_triangles_x : list (list Z) := [[32]; [17]].

(** A square on vertices 0..3 and an isolated vertex 4, at the vertex level. *)
Definition square_dot_up_index : list (Z * Z) :=
  index_of_rows [0; 1; 1; 2; 2; 3; 3; 0] [1; 0; 2; 1; 3; 2; 0; 3].
Definition square_dot_x : list (list Z) := [[1]; [2]; [3]; [4]; [5]].

(** A single filled triangle as a complex. *)
Definition all_pairs : list (Z * Z) := [(0, 1); (1, 0); (0, 2); (2, 0); (1, 2); (2, 1)].

Definition adjs (l : list (list Z * list (list Z * list Z)))
  : gmap (list Z) (gmap (list Z) (list Z)) :=
  list_to_map ((fun p => (p.1, list_to_map p.2)) <$> l).

Definition tri_nodes : Chain.t Z Z :=
  Chain.__init__ 0 (Some [[1]; [2]; [3]]) (Some all_pairs) None None
    (Some [[0]; [1]; [2]])
    (Some (adjs [([0], [([1], [0; 1]); ([2], [0; 2])]);
                 ([1], [([0], [0; 1]); ([2], [1; 2])]);
                 ([2], [([0], [0; 2]); ([1], [1; 2])])])).

Definition tri_edges_adjs : gmap (list Z) (gmap (list Z) (list Z)) :=
  adjs [([0; 1], [([0; 2], [0; 1; 2]); ([1; 2], [0; 1; 2])]);
        ([0; 2], [([0; 1], [0; 1; 2]); ([1; 2], [0; 1; 2])]);
        ([1; 2], [([0; 1], [0; 1; 2]); ([0; 2], [0; 1; 2])])].

Definition tri_edges : Chain.t Z Z :=
  Chain.__init__ 1 (Some [[10]; [20]; [30]]) (Some all_pairs) (Some all_pairs) None
    (Some [[0; 1]; [0; 2]; [1; 2]]) (Some tri_edges_adjs).

(** The same edge chain with a feature matrix of a single row. *)
Definition tri_edges_short_x : Chain.t Z Z :=
  Chain.__init__ 1 (Some [[10]]) (Some all_pairs) (Some all_pairs) None
    (Some [[0; 1]; [0; 2]; [1; 2]]) (Some tri_edges_adjs).

Definition tri_triangles : Chain.t Z Z :=
  Chain.__init__ 2 (Some [[100]]) None (Some []) None (Some [[0; 1; 2]]) None.

(** The same triangle chain without features. *)
Definition tri_triangles_no_x : Chain.t Z Z :=
  Chain.__init__ 2 None None (Some []) None (Some [[0; 1; 2]]) None.

(** One edge whose mapping row is stored in descending order. *)
Definition rev_nodes : Chain.t Z Z :=
  Chain.__init__ 0 None (Some [(0, 1); (1, 0)]) None None (Some [[0]; [1]])
    (Some (adjs [([0], [([1], [1; 0])]); ([1], [([0], [1; 0])])])).
Definition rev_edges : Chain.t Z Z :=
  Chain.__init__ 1 None (Some []) (Some []) None (Some [[1; 0]]) None.
Definition no_triangles : Chain.t Z Z :=
  Chain.__init__ 2 None None (Some []) None (Some []) None.

(** Two triangles, (0, 1, 2) and (0, 1, 3), that share their first edge; the
    row of that edge in the mapping of the edges is the parameter.  The
    lower index of the triangles links them in both directions. *)
Definition kite_nodes : Chain.t Z Z :=
  Chain.__init__ 0 None (Some []) None None (Some [[0]; [1]; [2]; [3]]) None.
Definition kite_edges (shared : list Z) : Chain.t Z Z :=
  Chain.__init__ 1 None (Some []) (Some []) None
    (Some [shared; [0; 2]; [1; 2]; [0; 3]; [1; 3]]) None.
Definition kite_triangles : Chain.t Z Z :=
  Chain.__init__ 2 None None (Some [(0, 1); (1, 0)]) None
    (Some [[0; 1; 2]; [0; 1; 3]]) None.

(** A node chain built with the defaults of [Chain.__init__]. *)
Definition default_nodes : Chain.t Z Z :=
  Chain.__init__ 0 None None None None None None.

(** A single vertex: no edges, no triangles, and no [upper_adjs] anywhere. *)
Definition dot_nodes : Chain.t Z Z :=
  Chain.__init__ 0 None (Some []) None None (Some [[0]]) None.
Definition dot_edges : Chain.t Z Z :=
  Chain.__init__ 1 None (Some []) (Some []) None (Some []) None.

(** An edge chain whose lower adjacency links two disjoint edges. *)
Definition bad_nodes : Chain.t Z Z :=
  Chain.__init__ 0 None (Some []) None None (Some [[0]; [1]; [2]; [3]]) None.
Definition bad_edges : Chain.t Z Z :=
  Chain.__init__ 1 None (Some []) (Some [(0, 1)]) None (Some [[0; 1]; [2; 3]]) None.

(** A flow dataset: the two cache paths, a generator that numbers its
    complexes, and a cache that holds the complex list only. *)
Definition flow_paths : list string :=
  ["processed/flow_complex_list.pkl"; "processed/flow_graph.pkl"].

Definition flow_generator (num_points num_train num_test : Z)
  : list nat * list nat * nat :=
  (seq 0 (Z.to_nat num_train), seq 100 (Z.to_nat num_test), Z.to_nat num_points).

Definition flow_cache : gmap string (FlowDataset.obj nat nat) :=
  <[ "processed/flow_complex_list.pkl" := FlowDataset.ComplexList [0; 1; 100]%nat ]> ∅.

End TestData.

(** * Properties *)

(** ** The error monad and the loops *)

Lemma bind_Ok {A B} (m : result A) (k : A -> result B) (b : B) :
  m ≫= k = Ok b <-> exists a, m = Ok a /\ k a = Ok b.
Proof.
  destruct m as [a|e]; simpl; split.
  - intros H; exists a; done.
  - intros (a' & [= <-] & H); done.
  - done.
  - intros (a' & [=] & _).
Qed.

Lemma attr_Ok {A} (o : option A) a : attr o = Ok a <-> o = Some a.
Proof. destruct o; simpl; split; congruence. Qed.

Lemma subscriptable_Ok {A} (o : option A) a : subscriptable o = Ok a <-> o = Some a.
Proof. destruct o; simpl; split; congruence. Qed.

Lemma dict_getitem_Ok `{Countable K} {V} (d : gmap K V) k v :
  dict_getitem d k = Ok v <-> d !! k = Some v.
Proof. unfold dict_getitem. destruct (d !! k); split; congruence. Qed.

Lemma result_cases {A} (r : result A) : (exists a, r = Ok a) \/ raises r.
Proof. destruct r as [a|e]; [left|right]; eexists; done. Qed.

Lemma raises_not_Ok {A} (r : result A) : (forall a, r <> Ok a) -> raises r.
Proof. intros H. destruct (result_cases r) as [[a Ha]|]; [by destruct (H a)|done]. Qed.

Lemma for_each_app {A S} (body : S -> A -> result S) s l1 l2 :
  for_each body s (l1 ++ l2) = s' ← for_each body s l1; for_each body s' l2.
Proof.
  revert s; induction l1 as [|a l1 IH]; intros s; simpl; [done|].
  destruct (body s a) as [s'|e]; simpl; [apply IH|done].
Qed.

Lemma range_0_S (n : nat) :
  range 0 (Z.of_nat (S n)) = range 0 (Z.of_nat n) ++ [Z.of_nat n].
Proof.
  unfold range. rewrite !Z.sub_0_r, !Nat2Z.id, seq_S, fmap_app. done.
Qed.

Lemma tensor_getitem_nat {A} (t : list A) (i : nat) a :
  t !! i = Some a -> tensor_getitem t (Z.of_nat i) = Ok a.
Proof.
  intros H. unfold tensor_getitem.
  pose proof (lookup_lt_Some _ _ _ H).
  destruct (decide (Z.of_nat i < 0)); [lia|].
  destruct (decide _); [|lia]. rewrite Nat2Z.id, H. done.
Qed.

Ltac inv_result :=
  repeat match goal with
  | H : Ok _ = Ok _ |- _ => injection H as H; try subst
  | H : Raise _ = Ok _ |- _ => discriminate H
  | H : attr _ = Ok _ |- _ => apply attr_Ok in H
  | H : subscriptable _ = Ok _ |- _ => apply subscriptable_Ok in H
  | H : dict_getitem _ _ = Ok _ |- _ => apply dict_getitem_Ok in H
  | H : (_ ≫= _) = Ok _ |- _ =>
      let a := fresh "v" in let Ha := fresh "Hv" in
      apply bind_Ok in H as (a & Ha & H)
  end.

(** ** The reverse mapping of a chain *)

Section RevMapping.
Context (m : list (list Z)).

Lemma rev_mapping_prefix (n : nat) :
  (n <= length m)%nat ->
  exists r,
    for_each
      (fun (current_rev_map : gmap (list Z) Z) key =>
         row ← tensor_getitem m key; Ok (<[row := key]> current_rev_map))
      ∅ (range 0 (Z.of_nat n)) = Ok r /\
    forall key k, r !! key = Some k <->
      (0 <= k < Z.of_nat n /\ m !! Z.to_nat k = Some key /\
       forall j : nat, (Z.to_nat k < j < n)%nat -> m !! j <> Some key).
Proof.
  induction n as [|n IH]; intros Hn.
  - exists ∅. split; [done|]. intros key k. rewrite lookup_empty. split; [done|lia].
  - destruct IH as (r & Hr & Hspec); [lia|].
    destruct (lookup_lt_is_Some_2 m n) as [rown Hrow]; [lia|].
    exists (<[rown := Z.of_nat n]> r). split.
    + rewrite range_0_S, for_each_app, Hr. simpl.
      rewrite (tensor_getitem_nat _ _ _ Hrow). done.
    + intros key k. destruct (decide (rown = key)) as [->|Hne].
      * rewrite lookup_insert_eq. split.
        -- intros [= <-]. rewrite Nat2Z.id. split; [lia|]. split; [done|lia].
        -- intros (Hk & Hm & Hlast). f_equal.
           destruct (decide (Z.to_nat k = n)) as [|Hkn]; [lia|].
           exfalso. apply (Hlast n); [lia|done].
      * rewrite lookup_insert_ne by done. rewrite Hspec. split.
        -- intros (Hk & Hm & Hlast). split; [lia|]. split; [done|].
           intros j Hj. destruct (decide (j = n)) as [->|]; [congruence|].
           apply Hlast; lia.
        -- intros (Hk & Hm & Hlast).
           assert (Z.to_nat k <> n) by congruence.
           split; [lia|]. split; [done|]. intros j Hj; apply Hlast; lia.
Qed.

(** The first loop of [_consolidate] never raises, and its result is keyed
    by the rows as stored. *)
Lemma rev_mapping_spec :
  exists r, Complex.rev_mapping m = Ok r /\ keyed_by_stored_rows m r.
Proof.
  destruct (rev_mapping_prefix (length m)) as (r & Hr & Hspec); [done|].
  exists r; split; [exact Hr|]. intros key k. rewrite Hspec. unfold last_row. split.
  - intros (Hk & Hm & Hlast). split; [lia|]. split; [done|].
    intros j Hj. destruct (decide (j < length m)%nat); [apply Hlast; lia|].
    rewrite lookup_ge_None_2; [done|lia].
  - intros (Hk & Hm & Hlast). pose proof (lookup_lt_Some _ _ _ Hm).
    split; [lia|]. split; [done|]. intros j Hj; apply Hlast; lia.
Qed.

Lemma rev_mapping_keyed r :
  Complex.rev_mapping m = Ok r -> keyed_by_stored_rows m r.
Proof.
  destruct rev_mapping_spec as (r' & Hr' & Hk). intros Hr.
  rewrite Hr in Hr'. by injection Hr' as <-.
Qed.

Lemma rev_mapping_range r key k :
  Complex.rev_mapping m = Ok r -> r !! key = Some k -> 0 <= k < Z.of_nat (length m).
Proof.
  intros Hr Hk. apply (rev_mapping_keyed r Hr) in Hk as (H0 & Hm & _).
  apply lookup_lt_Some in Hm. lia.
Qed.
End RevMapping.

(** ** The loops over the links *)

Lemma collect_acc (f : Z * Z -> result Z) index acc shared :
  for_each (fun shared link => id ← f link; Ok (shared ++ [id])) acc index = Ok shared <->
  exists ids, shared = acc ++ ids /\ Forall2 (fun link id => f link = Ok id) index ids.
Proof.
  revert acc. induction index as [|link index IH]; intros acc; simpl.
  - split.
    + intros [= <-]. exists []. by rewrite app_nil_r.
    + intros (ids & -> & H). apply Forall2_nil_inv_l in H as ->. by rewrite app_nil_r.
  - rewrite bind_Ok. split.
    + intros (acc' & Hb & Hrest). apply bind_Ok in Hb as (id & Hf & [= <-]).
      apply IH in Hrest as (ids & -> & Hall).
      exists (id :: ids). rewrite <- app_assoc. split; [done|]. by constructor.
    + intros (ids & -> & Hall).
      apply Forall2_cons_inv_l in Hall as (id & ids' & Hf & Hall & ->).
      exists (acc ++ [id]). split; [by rewrite Hf|].
      apply IH. exists ids'. by rewrite <- app_assoc.
Qed.

Lemma collect_Ok (f : Z * Z -> result Z) index shared :
  Complex.collect f index = Ok shared <->
  Forall2 (fun link id => f link = Ok id) index shared.
Proof.
  unfold Complex.collect. rewrite collect_acc. split.
  - intros (ids & -> & H). done.
  - intros H. by exists shared.
Qed.

(** ** What [Complex.__init__] establishes *)

Section Construction.
Context {scalar label : Type}.

#[local] Abbreviation chain := (Chain.t scalar label).

Lemma shared_face_Ok revs order (ch : chain) link id :
  Complex.shared_face revs order ch link = Ok id <->
  exists m rev, Chain.mapping ch = Some m /\ revs !! order = Some rev /\
    face_entry rev m link id.
Proof.
  unfold Complex.shared_face, face_entry. destruct link as [a b]. simpl. split.
  - intros H. inv_result.
    match goal with
    | H1 : Chain.mapping ch = Some ?m1, H2 : Chain.mapping ch = Some ?m2 |- _ =>
        assert (m2 = m1) as -> by congruence
    end.
    eauto 10.
  - intros (m & rev & Hm & Hrev & na & nb & Ha & Hb & Hid).
    rewrite Hm. simpl. rewrite Ha. simpl. rewrite Hb. simpl.
    apply dict_getitem_Ok in Hrev. rewrite Hrev. simpl. by apply dict_getitem_Ok.
Qed.

Lemma shared_coface_Ok revs order (ch : chain) link id :
  Complex.shared_coface revs order ch link = Ok id <->
  exists m rev, Chain.mapping ch = Some m /\ revs !! (order + 1) = Some rev /\
    coface_entry rev m (Chain.upper_adjs ch) link id.
Proof.
  unfold Complex.shared_coface, coface_entry. destruct link as [a b]. simpl. split.
  - intros H. inv_result.
    match goal with
    | H1 : Chain.mapping ch = Some ?m1, H2 : Chain.mapping ch = Some ?m2 |- _ =>
        assert (m2 = m1) as -> by congruence
    end.
    eauto 15.
  - intros (m & rev & Hm & Hrev & na & nb & adjs & adjs_a & coface &
            Ha & Hb & Hadjs & Hadjs_a & Hco & Hid).
    rewrite Hm. simpl. rewrite Ha. simpl. rewrite Hb. simpl.
    apply dict_getitem_Ok in Hrev. rewrite Hrev. simpl. rewrite Hadjs. simpl.
    apply dict_getitem_Ok in Hadjs_a. rewrite Hadjs_a. simpl.
    apply dict_getitem_Ok in Hco. rewrite Hco. simpl. by apply dict_getitem_Ok.
Qed.

Lemma faces_Forall2 revs order (ch : chain) m rev L sf :
  Chain.mapping ch = Some m -> revs !! order = Some rev ->
  Forall2 (fun link id => Complex.shared_face revs order ch link = Ok id) L sf <->
  Forall2 (face_entry rev m) L sf.
Proof.
  intros Hm Hrev.
  split; intros HF; eapply Forall2_impl; try exact HF; intros link id H.
  - apply shared_face_Ok in H as (m' & rev' & ? & ? & ?). congruence.
  - apply shared_face_Ok. eauto.
Qed.

Lemma cofaces_Forall2 revs order (ch : chain) m rev U sc :
  Chain.mapping ch = Some m -> revs !! (order + 1) = Some rev ->
  Forall2 (fun link id => Complex.shared_coface revs order ch link = Ok id) U sc <->
  Forall2 (coface_entry rev m (Chain.upper_adjs ch)) U sc.
Proof.
  intros Hm Hrev.
  split; intros HF; eapply Forall2_impl; try exact HF; intros link id H.
  - apply shared_coface_Ok in H as (m' & rev' & ? & ? & ?). congruence.
  - apply shared_coface_Ok. eauto.
Qed.

(** The dict [{0: nodes, 1: edges, 2: triangles}]. *)
Lemma chains_lookup (n e t : chain) (o : Z) :
  (<[2 := t]> (<[1 := e]> (<[0 := n]> (∅ : gmap Z chain)))) !! o =
    if decide (o = 0) then Some n else if decide (o = 1) then Some e
    else if decide (o = 2) then Some t else None.
Proof. repeat case_decide; subst; simplify_map_eq; done. Qed.

Lemma chains_getitem (n e t : chain) :
  dict_getitem (<[2 := t]> (<[1 := e]> (<[0 := n]> (∅ : gmap Z chain)))) 0 = Ok n /\
  dict_getitem (<[2 := t]> (<[1 := e]> (<[0 := n]> (∅ : gmap Z chain)))) 1 = Ok e /\
  dict_getitem (<[2 := t]> (<[1 := e]> (<[0 := n]> (∅ : gmap Z chain)))) 2 = Ok t.
Proof. unfold dict_getitem. rewrite !chains_lookup. done. Qed.

Lemma rev_mappings_Ok (self : Complex.t scalar label) n e t revs :
  Complex.chains self = <[2 := t]> (<[1 := e]> (<[0 := n]> ∅)) ->
  Complex.min_order self = 0 -> Complex.max_order self = 2 ->
  Complex.rev_mappings self = Ok revs <->
  exists m0 m1 m2 r0 r1 r2,
    Chain.mapping n = Some m0 /\ Chain.mapping e = Some m1 /\
    Chain.mapping t = Some m2 /\
    Complex.rev_mapping m0 = Ok r0 /\ Complex.rev_mapping m1 = Ok r1 /\
    Complex.rev_mapping m2 = Ok r2 /\
    revs = <[2 := r2]> (<[1 := r1]> (<[0 := r0]> ∅)).
Proof.
  intros Hch Hmin Hmax. unfold Complex.rev_mappings. rewrite Hch, Hmin, Hmax.
  change (range 0 (2 + 1)) with [0; 1; 2]. cbn [for_each].
  destruct (chains_getitem n e t) as (-> & -> & ->).
  split.
  - intros H. inv_result. eauto 15.
  - intros (m0 & m1 & m2 & r0 & r1 & r2 & Hm0 & Hm1 & Hm2 & Hr0 & Hr1 & Hr2 & ->).
    simpl. rewrite Hm0, Hm1, Hm2. simpl. rewrite Hr0. simpl. rewrite Hr1. simpl.
    rewrite Hr2. done.
Qed.

Lemma tables_Ok (self : Complex.t scalar label) n e t m0 m1 m2 r0 r1 r2 st :
  Complex.chains self = <[2 := t]> (<[1 := e]> (<[0 := n]> ∅)) ->
  Complex.min_order self = 0 -> Complex.max_order self = 2 ->
  Chain.mapping n = Some m0 -> Chain.mapping e = Some m1 ->
  Chain.mapping t = Some m2 ->
  Complex.tables self (<[2 := r2]> (<[1 := r1]> (<[0 := r0]> ∅))) = Ok st <->
  exists L1 L2 U0 U1 sf1 sf2 sc0 sc1,
    Chain.lower_index e = Some L1 /\ Chain.lower_index t = Some L2 /\
    Chain.upper_index n = Some U0 /\ Chain.upper_index e = Some U1 /\
    Forall2 (face_entry r0 m1) L1 sf1 /\
    Forall2 (coface_entry r1 m0 (Chain.upper_adjs n)) U0 sc0 /\
    Forall2 (face_entry r1 m2) L2 sf2 /\
    Forall2 (coface_entry r2 m1 (Chain.upper_adjs e)) U1 sc1 /\
    st = (<[2 := sf2]> (<[1 := sf1]> ∅), <[1 := sc1]> (<[0 := sc0]> ∅)).
Proof.
  intros Hch Hmin Hmax Hm0 Hm1 Hm2. unfold Complex.tables. rewrite Hch, Hmin, Hmax.
  change (range 0 2) with [0; 1]. cbn [for_each].
  change (0 + 1) with 1. change (1 + 1) with 2.
  destruct (chains_getitem n e t) as (-> & -> & ->).
  set (revs := <[2 := r2]> (<[1 := r1]> (<[0 := r0]> ∅))).
  assert (revs !! 0 = Some r0) as H0 by (subst revs; by simplify_map_eq).
  assert (revs !! (0 + 1) = Some r1) as H1 by (subst revs; by simplify_map_eq).
  assert (revs !! 1 = Some r1) as H1' by (subst revs; by simplify_map_eq).
  assert (revs !! (1 + 1) = Some r2) as H2 by (subst revs; by simplify_map_eq).
  split.
  - intros H. inv_result.
    repeat match goal with
    | H : Complex.collect _ _ = Ok _ |- _ => apply collect_Ok in H
    end.
    rewrite (faces_Forall2 _ _ _ _ _ _ _ Hm1 H0) in *.
    rewrite (cofaces_Forall2 _ _ _ _ _ _ _ Hm0 H1) in *.
    rewrite (faces_Forall2 _ _ _ _ _ _ _ Hm2 H1') in *.
    rewrite (cofaces_Forall2 _ _ _ _ _ _ _ Hm1 H2) in *.
    do 8 eexists. split_and!; eauto.
  - intros (L1 & L2 & U0 & U1 & sf1 & sf2 & sc0 & sc1 & HL1 & HL2 & HU0 & HU1 &
            F1 & C0 & F2 & C1 & ->).
    apply (faces_Forall2 _ _ _ _ _ _ _ Hm1 H0), collect_Ok in F1.
    apply (cofaces_Forall2 _ _ _ _ _ _ _ Hm0 H1), collect_Ok in C0.
    apply (faces_Forall2 _ _ _ _ _ _ _ Hm2 H1'), collect_Ok in F2.
    apply (cofaces_Forall2 _ _ _ _ _ _ _ Hm1 H2), collect_Ok in C1.
    simpl. rewrite HL1. simpl. rewrite F1. simpl. rewrite HU0. simpl. rewrite C0.
    simpl. rewrite HL2. simpl. rewrite F2. simpl. rewrite HU1. simpl. rewrite C1.
    done.
Qed.

(** The constructor succeeds exactly when every read of [_consolidate]
    succeeds, and then yields the tables those reads produce. *)
Lemma init_Ok (n e t : chain) (y : option label) c :
  Complex.__init__ n e t y = Ok c <-> consolidated n e t y c.
Proof.
  unfold Complex.__init__, Complex._consolidate, consolidated.
  set (self := Complex.mk _ _ _ _ _ _ _ _ _).
  split.
  - intros H. apply bind_Ok in H as (revs & Hrevs & H).
    apply (rev_mappings_Ok self n e t) in Hrevs
      as (m0 & m1 & m2 & r0 & r1 & r2 & Hm0 & Hm1 & Hm2 & Hr0 & Hr1 & Hr2 & ->);
      [|done..].
    apply bind_Ok in H as (st & Hst & [= <-]).
    apply (tables_Ok self n e t m0 m1 m2) in Hst
      as (L1 & L2 & U0 & U1 & sf1 & sf2 & sc0 & sc1 &
          ? & ? & ? & ? & ? & ? & ? & ? & ->);
      [|done..].
    exists m0, m1, m2, r0, r1, r2, L1, L2, U0, U1, sf1, sf2, sc0, sc1. done.
  - intros (m0 & m1 & m2 & r0 & r1 & r2 & L1 & L2 & U0 & U1 & sf1 & sf2 & sc0 & sc1 &
            Hm0 & Hm1 & Hm2 & Hr0 & Hr1 & Hr2 & HL1 & HL2 & HU0 & HU1 &
            F1 & C0 & F2 & C1 & ->).
    apply bind_Ok. exists (<[2 := r2]> (<[1 := r1]> (<[0 := r0]> ∅))). split.
    + apply (rev_mappings_Ok self n e t); [done..|]. eauto 15.
    + apply bind_Ok. eexists. split.
      * apply (tables_Ok self n e t m0 m1 m2); [done..|].
        do 8 eexists. split_and!; eauto.
      * done.
Qed.

End Construction.

(** ** Gathering features through a table *)

Lemma index_select_Ok {A} (f : list A) (index : list Z) rows :
  index_select f index = Ok rows <->
  Forall2 (fun id row => 0 <= id < Z.of_nat (length f) /\ f !! Z.to_nat id = Some row)
    index rows.
Proof.
  revert rows. induction index as [|id index IH]; intros rows; simpl.
  - split; [intros [= <-]; constructor|]. intros H. by apply Forall2_nil_inv_l in H as ->.
  - destruct (decide _) as [Hid|Hid].
    + destruct (f !! Z.to_nat id) as [r|] eqn:Hr.
      * rewrite bind_Ok. split.
        -- intros (rows' & Hrows & [= <-]). constructor; [done|]. by apply IH.
        -- intros H. apply Forall2_cons_inv_l in H as (r' & rows' & (_ & Hr') & HF & ->).
           exists rows'. split; [by apply IH|]. congruence.
      * split; [done|]. intros H.
        apply Forall2_cons_inv_l in H as (r' & rows' & (_ & Hr') & _). congruence.
    + split; [done|]. intros H.
      apply Forall2_cons_inv_l in H as (r' & rows' & (? & _) & _). done.
Qed.

Lemma index_select_total {A} (f : list A) (index : list Z) :
  Forall (fun id => 0 <= id < Z.of_nat (length f)) index ->
  exists rows, index_select f index = Ok rows.
Proof.
  induction 1 as [|id index Hid _ (rows & Hrows)]; simpl; [eauto|].
  destruct (decide _) as [_|]; [|done].
  destruct (lookup_lt_is_Some_2 f (Z.to_nat id)) as [r Hr]; [lia|].
  rewrite Hr, Hrows. simpl. eauto.
Qed.

(** ** Which exceptions the queries can raise *)

Lemma never_unsupported_bind {A B} (m : result A) (k : A -> result B) :
  never_unsupported m -> (forall a, never_unsupported (k a)) ->
  never_unsupported (m ≫= k).
Proof.
  destruct m as [a|e]; simpl; [auto|]. intros H _ [= ->]. by apply H.
Qed.

Lemma never_unsupported_attr {A} (o : option A) : never_unsupported (attr o).
Proof. by destruct o. Qed.

Lemma never_unsupported_getitem `{Countable K} {V} (d : gmap K V) k :
  never_unsupported (dict_getitem d k).
Proof. unfold dict_getitem. by destruct (d !! k). Qed.

Lemma never_unsupported_index_select {A} (input : list A) index :
  never_unsupported (index_select input index).
Proof.
  induction index as [|i index IH]; simpl; [done|].
  destruct (decide _); [|done]. destruct (input !! _); [|done].
  apply never_unsupported_bind; [done|]. intros; done.
Qed.

Lemma Forall2_elem_of_l {A B} (P : A -> B -> Prop) l k x :
  Forall2 P l k -> x ∈ l -> exists y, P x y.
Proof.
  intros HF Hx. apply list_elem_of_lookup in Hx as [i Hi].
  destruct (Forall2_lookup_l _ _ _ _ _ HF Hi) as (y & _ & HP). eauto.
Qed.

Lemma Forall2_nonempty_l {A B} (P : A -> B -> Prop) l k :
  Forall2 P l k -> l <> [] -> exists x y, P x y.
Proof. intros [|x y l' k' HP _] Hne; [done|eauto]. Qed.

(** ** The claims about [Complex] *)

Section ComplexClaims.
Context {scalar label : Type}.

#[local] Abbreviation chain := (Chain.t scalar label).

(** The tables as the code builds them.  After a successful construction,
    for every order [k] below the top one: the reverse mapping of each chain is keyed by the
    rows of its mapping exactly as they are stored (the last row wins among
    equal rows); [shared_faces[k + 1]] holds, at the position of each lower
    link [(a, b)] of the chain of order [k + 1], the id found in the
    reverse mapping of order [k] under the sorted intersection of the node
    sets of [a] and [b]; and [shared_cofaces[k]] holds, at the position of
    each upper link of the chain of order [k], the id found in the reverse
    mapping of order [k + 1] under [upper_adjs[nodes_a][nodes_b]]. *)
Theorem consolidate_tables_aligned (n e t : chain) (y : option label)
    (c : Complex.t scalar label) (k : Z) :
  Complex.__init__ n e t y = Ok c ->
  Complex.min_order c <= k < Complex.max_order c ->
  faces_aligned c k /\ cofaces_aligned c k.
Proof.
  intros Hc Hk. apply init_Ok in Hc
    as (m0 & m1 & m2 & r0 & r1 & r2 & L1 & L2 & U0 & U1 & sf1 & sf2 & sc0 & sc1 &
        Hm0 & Hm1 & Hm2 & Hr0 & Hr1 & Hr2 & HL1 & HL2 & HU0 & HU1 &
        F1 & C0 & F2 & C1 & ->).
  simpl in Hk.
  pose proof (rev_mapping_keyed _ _ Hr0). pose proof (rev_mapping_keyed _ _ Hr1).
  pose proof (rev_mapping_keyed _ _ Hr2).
  assert (k = 0 \/ k = 1) as [-> | ->] by lia.
  - split.
    + exists n, e, m0, m1, r0, L1, sf1. simpl. rewrite !chains_lookup. simpl.
      split_and!; try done.
    + exists n, e, m0, m1, r1, U0, sc0. simpl. rewrite !chains_lookup. simpl.
      split_and!; try done.
  - split.
    + exists e, t, m1, m2, r1, L2, sf2. simpl. rewrite !chains_lookup. simpl.
      split_and!; try done.
    + exists e, t, m1, m2, r2, U1, sc1. simpl. rewrite !chains_lookup. simpl.
      split_and!; try done.
Qed.

Lemma consolidated_consistent (n e t : chain) y c :
  consolidated n e t y c -> ~ inconsistent n e t.
Proof.
  intros (m0 & m1 & m2 & r0 & r1 & r2 & L1 & L2 & U0 & U1 & sf1 & sf2 & sc0 & sc1 &
        Hm0 & Hm1 & Hm2 & Hr0 & Hr1 & Hr2 & HL1 & HL2 & HU0 & HU1 &
        F1 & C0 & F2 & C1 & ->).
  intros [H | [H | [H | H]]].
  - destruct H as (m_lo & m_up & r & L & link & na & nb &
                   ? & ? & ? & ? & Hin & Ha & Hb & Hnone).
    simplify_eq.
    destruct (Forall2_elem_of_l _ _ _ _ F1 Hin) as (id & na' & nb' & Ha' & Hb' & Hid).
    congruence.
  - destruct H as (m_lo & m_up & r & U & link & na & nb & adjs & adjs_a & coface &
                   ? & ? & ? & ? & Hin & Ha & Hb & Hadj & Hadj_a & Hco & Hnone).
    simplify_eq.
    destruct (Forall2_elem_of_l _ _ _ _ C0 Hin)
      as (id & na' & nb' & adjs' & adjs_a' & coface' & Ha' & Hb' & ? & ? & ? & Hid).
    simplify_eq. congruence.
  - destruct H as (m_lo & m_up & r & L & link & na & nb &
                   ? & ? & ? & ? & Hin & Ha & Hb & Hnone).
    simplify_eq.
    destruct (Forall2_elem_of_l _ _ _ _ F2 Hin) as (id & na' & nb' & Ha' & Hb' & Hid).
    congruence.
  - destruct H as (m_lo & m_up & r & U & link & na & nb & adjs & adjs_a & coface &
                   ? & ? & ? & ? & Hin & Ha & Hb & Hadj & Hadj_a & Hco & Hnone).
    simplify_eq.
    destruct (Forall2_elem_of_l _ _ _ _ C1 Hin)
      as (id & na' & nb' & adjs' & adjs_a' & coface' & Ha' & Hb' & ? & ? & ? & Hid).
    simplify_eq. congruence.
Qed.

(** C8.  If a face computed for some lower link, or a coface read from
    [upper_adjs] for some upper link, is no key of the reverse mapping it is
    looked up in, the construction of the [Complex] raises: it never returns
    a complex. *)
Theorem malformed_consolidation_raises (n e t : chain) (y : option label) :
  inconsistent n e t -> raises (Complex.__init__ n e t y).
Proof.
  intros Hbad. apply raises_not_Ok. intros c Hc.
  apply init_Ok in Hc. by apply consolidated_consistent in Hc.
Qed.

Lemma consolidated_required (n e t : chain) y c :
  consolidated n e t y c -> required_present n e t.
Proof.
  intros (m0 & m1 & m2 & r0 & r1 & r2 & L1 & L2 & U0 & U1 & sf1 & sf2 & sc0 & sc1 &
        Hm0 & Hm1 & Hm2 & Hr0 & Hr1 & Hr2 & HL1 & HL2 & HU0 & HU1 &
        F1 & C0 & F2 & C1 & ->).
  unfold required_present. rewrite Hm0, Hm1, Hm2, HL1, HL2, HU0, HU1.
  split_and!; try done.
  - intros Hne. destruct (Forall2_nonempty_l _ _ _ C0) as (link & id & H); [congruence|].
    destruct H as (? & ? & adjs & ? & ? & _ & _ & -> & _). done.
  - intros Hne. destruct (Forall2_nonempty_l _ _ _ C1) as (link & id & H); [congruence|].
    destruct H as (? & ? & adjs & ? & ? & _ & _ & -> & _). done.
Qed.

(** C10 (amended).  A successfully constructed [Complex] has the [mapping]
    of every chain, the [lower_index] of the chains of orders 1 and 2 and
    the [upper_index] of the chains of orders 0 and 1 present, and the
    [upper_adjs] of a chain of order 0 or 1 present whenever that chain's
    [upper_index] has at least one edge; when one of these is [None] the
    construction raises. *)
Theorem construction_requires_fields (n e t : chain) (y : option label) :
  (forall c, Complex.__init__ n e t y = Ok c -> required_present n e t) /\
  (~ required_present n e t -> raises (Complex.__init__ n e t y)).
Proof.
  assert (forall c, Complex.__init__ n e t y = Ok c -> required_present n e t) as H.
  { intros c Hc. apply init_Ok in Hc. by eapply consolidated_required. }
  split; [exact H|]. intros Hmiss. apply raises_not_Ok. intros c Hc. eauto.
Qed.

(** C9.  Consolidating a complex that has just been consolidated yields the
    very same complex, tables included, and consolidation leaves the chains
    it reads unchanged. *)
Theorem consolidate_idempotent (c c' : Complex.t scalar label) :
  Complex._consolidate c = Ok c' ->
  Complex._consolidate c' = Ok c' /\
  Complex.chains c' = Complex.chains c /\
  Complex.nodes c' = Complex.nodes c /\ Complex.edges c' = Complex.edges c /\
  Complex.triangles c' = Complex.triangles c.
Proof.
  unfold Complex._consolidate at 1. intros H.
  apply bind_Ok in H as (revs & Hrevs & H).
  apply bind_Ok in H as (st & Hst & [= <-]).
  split; [|done].
  unfold Complex._consolidate.
  change (Complex.rev_mappings _) with (Complex.rev_mappings c).
  rewrite Hrevs. simpl.
  change (Complex.tables _ revs) with (Complex.tables c revs).
  rewrite Hst. done.
Qed.

Lemma never_unsupported_gather (features : option (list (list scalar))) table order :
  never_unsupported (Complex.gather features table order).
Proof.
  unfold Complex.gather. destruct features; [|done].
  apply never_unsupported_bind; [apply never_unsupported_attr|]. intros tbl.
  apply never_unsupported_bind; [apply never_unsupported_getitem|]. intros index.
  apply never_unsupported_bind; [apply never_unsupported_index_select|]. done.
Qed.

Lemma get_inputs_unsupported (c : Complex.t scalar label) (order : Z) :
  Complex.get_inputs c order = Raise NotImplementedError <->
  Complex.chains c !! order = None.
Proof.
  unfold Complex.get_inputs. destruct (Complex.chains c !! order) as [ch|]; [|done].
  split; [|done]. intros H. exfalso. revert H.
  apply never_unsupported_bind.
  - case_decide; [|done].
    apply never_unsupported_bind; [apply never_unsupported_getitem|]. intros up.
    apply never_unsupported_bind; [apply never_unsupported_gather|]. done.
  - intros up. apply never_unsupported_bind; [|done].
    case_decide; [|done].
    apply never_unsupported_bind; [apply never_unsupported_getitem|]. intros down.
    apply never_unsupported_bind; [apply never_unsupported_gather|]. done.
Qed.

Lemma get_labels_unsupported (c : Complex.t scalar label) (order : Z) :
  Complex.get_labels c (Some order) = Raise NotImplementedError <->
  Complex.chains c !! order = None.
Proof. simpl. destruct (Complex.chains c !! order); done. Qed.

Lemma init_chains (n e t : chain) y c (order : Z) :
  Complex.__init__ n e t y = Ok c ->
  Complex.chains c !! order = None <->
  ~ (Complex.min_order c <= order <= Complex.max_order c).
Proof.
  intros Hc. apply init_Ok in Hc as (m0 & m1 & m2 & r0 & r1 & r2 & L1 & L2 & U0 & U1 &
    sf1 & sf2 & sc0 & sc1 & _ & _ & _ & _ & _ & _ & _ & _ & _ & _ & _ & _ & _ & _ & ->).
  simpl. rewrite chains_lookup. repeat case_decide; split; (done || lia).
Qed.

Lemma init_orders (n e t : chain) y c :
  Complex.__init__ n e t y = Ok c ->
  Complex.min_order c = 0 /\ Complex.max_order c = 2.
Proof.
  intros Hc. apply init_Ok in Hc as (m0 & m1 & m2 & r0 & r1 & r2 & L1 & L2 & U0 & U1 &
    sf1 & sf2 & sc0 & sc1 & _ & _ & _ & _ & _ & _ & _ & _ & _ & _ & _ & _ & _ & _ & ->).
  done.
Qed.

(** C7.  On a constructed complex, [get_inputs(order)] and
    [get_labels(order)] end in the unsupported-order error exactly when
    [order] is outside [[min_order, max_order]], that is, exactly when it is
    no key of [chains]; the error is the result the caller receives; and
    [get_labels()] with the order omitted returns the complex-wide label. *)
Theorem unsupported_order (n e t : chain) (y : option label)
    (c : Complex.t scalar label) (order : Z) :
  Complex.__init__ n e t y = Ok c ->
  (Complex.get_inputs c order = Raise NotImplementedError <->
     ~ (Complex.min_order c <= order <= Complex.max_order c)) /\
  (Complex.get_labels c (Some order) = Raise NotImplementedError <->
     ~ (Complex.min_order c <= order <= Complex.max_order c)) /\
  (Complex.chains c !! order = None <->
     ~ (Complex.min_order c <= order <= Complex.max_order c)) /\
  Complex.get_labels c None = Ok y.
Proof.
  intros Hc. pose proof (init_chains n e t y c order Hc) as Hch.
  rewrite get_inputs_unsupported, get_labels_unsupported.
  split_and!; try done.
  apply init_Ok in Hc as (m0 & m1 & m2 & r0 & r1 & r2 & L1 & L2 & U0 & U1 &
    sf1 & sf2 & sc0 & sc1 & _ & _ & _ & _ & _ & _ & _ & _ & _ & _ & _ & _ & _ & _ & ->).
  done.
Qed.

End ComplexClaims.

(** ** The inputs of message passing *)

Section InputsClaims.
Context {scalar label : Type}.

#[local] Abbreviation chain := (Chain.t scalar label).

Lemma faces_in_range m_lo r m_up L sf :
  Complex.rev_mapping m_lo = Ok r ->
  Forall2 (face_entry r m_up) L sf ->
  Forall (fun id => 0 <= id < Z.of_nat (length m_lo)) sf.
Proof.
  intros Hr HF. apply Forall_forall. intros id Hid.
  apply list_elem_of_lookup in Hid as [i Hi].
  destruct (Forall2_lookup_r _ _ _ _ _ HF Hi) as (link & _ & na & nb & _ & _ & Hkey).
  by eapply rev_mapping_range.
Qed.

Lemma cofaces_in_range m_up r m_lo adjs U sc :
  Complex.rev_mapping m_up = Ok r ->
  Forall2 (coface_entry r m_lo adjs) U sc ->
  Forall (fun id => 0 <= id < Z.of_nat (length m_up)) sc.
Proof.
  intros Hr HF. apply Forall_forall. intros id Hid.
  apply list_elem_of_lookup in Hid as [i Hi].
  destruct (Forall2_lookup_r _ _ _ _ _ HF Hi)
    as (link & _ & na & nb & d & da & co & _ & _ & _ & _ & _ & Hkey).
  by eapply rev_mapping_range.
Qed.

Lemma gather_Ok (features : option (list (list scalar)))
    (T : gmap Z (list Z)) (order : Z) (table : list Z) (edges : list (Z * Z)) out :
  T !! order = Some table -> length edges = length table ->
  Complex.gather features (Some T) order = Ok out ->
  gathered features (Some edges) table out.
Proof.
  intros HT Hlen. unfold Complex.gather, gathered.
  destruct features as [f|]; [|by intros [= <-]].
  simpl. apply dict_getitem_Ok in HT. rewrite HT. simpl. intros H.
  apply bind_Ok in H as (rows & Hrows & [= <-]). apply index_select_Ok in Hrows.
  exists rows, edges. split_and!; try done.
  - apply Forall2_length in Hrows. lia.
  - eapply Forall2_impl; [exact Hrows|]. intros id row [[? _] ?]. done.
Qed.

Lemma gather_total (features : option (list (list scalar)))
    (T : gmap Z (list Z)) (order : Z) (table : list Z) (n : nat) :
  T !! order = Some table ->
  Forall (fun id => 0 <= id < Z.of_nat n) table ->
  (forall f, features = Some f -> (n <= length f)%nat) ->
  exists out, Complex.gather features (Some T) order = Ok out.
Proof.
  intros HT Hrange Hcover. unfold Complex.gather.
  destruct features as [f|]; [|eauto].
  simpl. apply dict_getitem_Ok in HT. rewrite HT. simpl.
  destruct (index_select_total f table) as (rows & ->); [|simpl; eauto].
  eapply Forall_impl; [exact Hrange|]. intros id Hid. simpl in Hid.
  specialize (Hcover f eq_refl). lia.
Qed.

Lemma get_inputs_Ok (n e t : chain) y c order r :
  consolidated n e t y c ->
  Complex.min_order c <= order <= Complex.max_order c ->
  Complex.get_inputs c order = Ok r ->
  upper_inputs c order r /\ lower_inputs c order r.
Proof.
  intros (m0 & m1 & m2 & r0 & r1 & r2 & L1 & L2 & U0 & U1 & sf1 & sf2 & sc0 & sc1 &
        Hm0 & Hm1 & Hm2 & Hr0 & Hr1 & Hr2 & HL1 & HL2 & HU0 & HU1 &
        F1 & C0 & F2 & C1 & ->) Horder.
  simpl in Horder. apply Forall2_length in F1, C0, F2, C1.
  unfold Complex.get_inputs, upper_inputs, lower_inputs.
  cbn [Complex.chains Complex.min_order Complex.max_order Complex.shared_faces
       Complex.shared_cofaces].
  destruct (chains_getitem n e t) as (G0 & G1 & G2).
  assert (order = 0 \/ order = 1 \/ order = 2) as [-> | [-> | ->]] by lia.
  - rewrite !chains_lookup. simpl decide. cbv iota.
    change (0 + 1) with 1. rewrite G1. simpl. intros H.
    apply bind_Ok in H as (up & Hup & [= <-]).
    apply bind_Ok in Hup as (out & Hout & [= <-]).
    apply (gather_Ok _ _ _ sc0 U0) in Hout; [|by simplify_map_eq|done].
    simpl. split; [|done].
    exists n, e, sc0. rewrite HU0. split_and!; try done; by simplify_map_eq.
  - rewrite !chains_lookup. simpl decide. cbv iota.
    change (1 + 1) with 2. change (1 - 1) with 0. rewrite G2, G0. simpl. intros H.
    apply bind_Ok in H as (up & Hup & H).
    apply bind_Ok in Hup as (out & Hout & [= <-]).
    apply bind_Ok in H as (down & Hdown & [= <-]).
    apply bind_Ok in Hdown as (out' & Hout' & [= <-]).
    apply (gather_Ok _ _ _ sc1 U1) in Hout; [|by simplify_map_eq|done].
    apply (gather_Ok _ _ _ sf1 L1) in Hout'; [|by simplify_map_eq|done].
    simpl. split.
    + exists e, t, sc1. rewrite HU1. split_and!; try done; by simplify_map_eq.
    + exists e, n, sf1. rewrite HL1. split_and!; try done; by simplify_map_eq.
  - rewrite !chains_lookup. simpl decide. cbv iota.
    change (2 - 1) with 1. rewrite G1. simpl. intros H.
    apply bind_Ok in H as (down & Hdown & [= <-]).
    apply bind_Ok in Hdown as (out' & Hout' & [= <-]).
    apply (gather_Ok _ _ _ sf2 L2) in Hout'; [|by simplify_map_eq|done].
    simpl. split; [done|].
    exists t, e, sf2. rewrite HL2. split_and!; try done; by simplify_map_eq.
Qed.

Lemma get_inputs_total (n e t : chain) y c order :
  consolidated n e t y c ->
  rows_cover n -> rows_cover e -> rows_cover t ->
  Complex.min_order c <= order <= Complex.max_order c ->
  exists r, Complex.get_inputs c order = Ok r.
Proof.
  intros (m0 & m1 & m2 & r0 & r1 & r2 & L1 & L2 & U0 & U1 & sf1 & sf2 & sc0 & sc1 &
        Hm0 & Hm1 & Hm2 & Hr0 & Hr1 & Hr2 & HL1 & HL2 & HU0 & HU1 &
        F1 & C0 & F2 & C1 & ->) Hn He Ht Horder.
  simpl in Horder.
  pose proof (faces_in_range _ _ _ _ _ Hr0 F1) as R1.
  pose proof (cofaces_in_range _ _ _ _ _ _ Hr1 C0) as R0.
  pose proof (faces_in_range _ _ _ _ _ Hr1 F2) as R2.
  pose proof (cofaces_in_range _ _ _ _ _ _ Hr2 C1) as R1'.
  unfold Complex.get_inputs.
  cbn [Complex.chains Complex.min_order Complex.max_order Complex.shared_faces
       Complex.shared_cofaces].
  destruct (chains_getitem n e t) as (G0 & G1 & G2).
  assert (order = 0 \/ order = 1 \/ order = 2) as [-> | [-> | ->]] by lia.
  - rewrite !chains_lookup. simpl decide. cbv iota.
    change (0 + 1) with 1. rewrite G1. simpl.
    destruct (gather_total (Chain.x e) (<[1 := sc1]> (<[0 := sc0]> ∅)) 0 sc0 (length m1))
      as (out & ->); [by simplify_map_eq|done|eauto|].
    simpl. eauto.
  - rewrite !chains_lookup. simpl decide. cbv iota.
    change (1 + 1) with 2. change (1 - 1) with 0. rewrite G2, G0. simpl.
    destruct (gather_total (Chain.x t) (<[1 := sc1]> (<[0 := sc0]> ∅)) 1 sc1 (length m2))
      as (out & ->); [by simplify_map_eq|done|eauto|].
    simpl.
    destruct (gather_total (Chain.x n) (<[2 := sf2]> (<[1 := sf1]> ∅)) 1 sf1 (length m0))
      as (out' & ->); [by simplify_map_eq|done|eauto|].
    simpl. eauto.
  - rewrite !chains_lookup. simpl decide. cbv iota.
    change (2 - 1) with 1. rewrite G1. simpl.
    destruct (gather_total (Chain.x e) (<[2 := sf2]> (<[1 := sf1]> ∅)) 2 sf2 (length m1))
      as (out' & ->); [by simplify_map_eq|done|eauto|].
    simpl. eauto.
Qed.

(** C3 (amended).  On a constructed complex and for an in-range order, every
    result of [get_inputs(order)] is as follows.  Below the top order the
    upper index is the chain's own [upper_index], which is present, also when
    the features of order + 1 are absent; the upper features are [None] when
    those features are absent and otherwise have one row per edge of the
    upper index, the row at each position being the feature row of order + 1
    selected by [shared_cofaces[order]] at that position.  At the top order
    the upper index and the upper features are both [None].  The lower side
    is symmetric, with [shared_faces[order]], order - 1 and the bottom order.
    [get_inputs(order)] does return a result when every present feature
    matrix has a row for every simplex of its chain. *)
Theorem get_inputs_aligned (n e t : chain) (y : option label)
    (c : Complex.t scalar label) (order : Z) :
  Complex.__init__ n e t y = Ok c ->
  Complex.min_order c <= order <= Complex.max_order c ->
  (forall r, Complex.get_inputs c order = Ok r ->
     upper_inputs c order r /\ lower_inputs c order r) /\
  (rows_cover n -> rows_cover e -> rows_cover t ->
     exists r, Complex.get_inputs c order = Ok r).
Proof.
  intros Hc Horder. apply init_Ok in Hc. split.
  - intros r. by eapply get_inputs_Ok.
  - intros. by eapply get_inputs_total.
Qed.

End InputsClaims.

(** ** The message-passing engine *)

Section EngineClaims.
Import ChainMessagePassing.
Context {scalar : Type} (zero : scalar) (add : scalar -> scalar -> scalar).
Context (combine : list scalar -> list scalar -> list scalar).

#[local] Abbreviation edge_message := (ChainMessagePassing.edge_message combine).
#[local] Abbreviation aggregate := (ChainMessagePassing.aggregate zero add combine).
#[local] Abbreviation propagate := (ChainMessagePassing.propagate zero add combine).
#[local] Abbreviation zeros := (ChainMessagePassing.zeros zero).
#[local] Abbreviation vadd := (ChainMessagePassing.vadd add).

Lemma row_Ok {A} (t : list A) (i : Z) a :
  row t i = Ok a <-> 0 <= i < Z.of_nat (length t) /\ t !! Z.to_nat i = Some a.
Proof.
  unfold row. destruct (decide _) as [Hi|Hi].
  - destruct (t !! Z.to_nat i) eqn:E; split; try done.
    + intros [= <-]. done.
    + intros (_ & [= <-]). done.
    + intros (_ & [=]).
  - split; [done|]. intros (? & _). done.
Qed.

(** The invariant of the scatter loop: after the edges of [l], every row is
    its initial value plus the messages of the edges of [l] that point to
    it, added in the order of the edges. *)
Lemma aggregate_loop (width : nat) x attr (l : list (nat * (Z * Z))) out0 out :
  for_each
    (fun out (e : nat * (Z * Z)) =>
       m ← edge_message width x attr e.1 e.2.1;
       scatter_add add out e.2.2 m) out0 l = Ok out ->
  length out = length out0 /\
  forall (i : nat) r0, out0 !! i = Some r0 ->
    exists msgs,
      Forall2 (fun (e : nat * (Z * Z)) m => edge_message width x attr e.1 e.2.1 = Ok m)
        (filter (fun e : nat * (Z * Z) => e.2.2 = Z.of_nat i) l) msgs /\
      out !! i = Some (foldl vadd r0 msgs).
Proof.
  revert out0. induction l as [|e l IH]; intros out0; simpl.
  - intros [= <-]. split; [done|]. intros i r0 Hi. exists []. split; [constructor|done].
  - intros H. apply bind_Ok in H as (out1 & Hbody & H).
    apply bind_Ok in Hbody as (m & Hm & Hsc).
    unfold scatter_add in Hsc. apply bind_Ok in Hsc as (r & Hr & [= <-]).
    apply row_Ok in Hr as (Hdst & Hr).
    destruct (IH _ H) as (Hlen & Hrows). rewrite length_insert in Hlen.
    split; [done|]. intros i r0 Hi.
    destruct (decide (e.2.2 = Z.of_nat i)) as [Heq|Hne].
    + rewrite filter_cons_True by done.
      rewrite Heq, Nat2Z.id in *. assert (r = r0) as -> by congruence.
      destruct (Hrows i (vadd r0 m)) as (msgs & HF & Hout).
      { apply list_lookup_insert_eq. by eapply lookup_lt_Some. }
      exists (m :: msgs). split; [by constructor|done].
    + rewrite filter_cons_False by done.
      apply Hrows. rewrite list_lookup_insert_ne; [done|]. lia.
Qed.

Lemma aggregate_rows (width : nat) index x attr out :
  aggregate width index x attr = Ok out ->
  length out = length x /\
  forall i : nat, (i < length x)%nat ->
    exists r, out !! i = Some r /\ sums_incoming zero add combine width x attr index i r.
Proof.
  unfold ChainMessagePassing.aggregate, sums_incoming. destruct index as [edges|].
  - intros H. apply aggregate_loop in H as (Hlen & Hrows).
    rewrite length_replicate in Hlen. split; [done|]. intros i Hi.
    destruct (Hrows i (zeros width)) as (msgs & HF & Hout).
    { by apply lookup_replicate_2. }
    eauto.
  - intros [= <-]. rewrite length_replicate. split; [done|]. intros i Hi.
    exists (zeros width). split; [by apply lookup_replicate_2|done].
Qed.

Lemma sums_incoming_isolated width x attr index i r :
  isolated index i -> sums_incoming zero add combine width x attr index i r ->
  r = zeros width.
Proof.
  unfold isolated, sums_incoming. destruct index as [edges|]; [|done].
  intros -> (msgs & HF & ->). apply Forall2_nil_inv_l in HF as ->. done.
Qed.

Lemma propagate_Ok self up_index down_index x up_attr down_attr up down :
  propagate self up_index down_index x up_attr down_attr = Ok (up, down) <->
  aggregate (up_msg_size self) up_index x up_attr = Ok up /\
  aggregate (down_msg_size self) down_index x down_attr = Ok down.
Proof.
  unfold ChainMessagePassing.propagate. split.
  - intros H. apply bind_Ok in H as (u & Hu & H).
    apply bind_Ok in H as (d & Hd & [= <- <-]). done.
  - intros [-> ->]. done.
Qed.

(** C1.  In every result of [propagate], [up_msg] and [down_msg] have one row
    per row of [x]; the row of [up_msg] of a simplex to which no edge of
    [up_index] points, or of any simplex when [up_index] is [None], is the
    zero vector of width [up_msg_size]; and likewise for [down_msg],
    [down_index] and [down_msg_size]. *)
Theorem propagate_zero_rows self up_index down_index x up_attr down_attr up down :
  propagate self up_index down_index x up_attr down_attr = Ok (up, down) ->
  length up = length x /\ length down = length x /\
  forall i : nat, (i < length x)%nat ->
    (isolated up_index i -> up !! i = Some (zeros (up_msg_size self))) /\
    (isolated down_index i -> down !! i = Some (zeros (down_msg_size self))).
Proof.
  intros H. apply propagate_Ok in H as [Hup Hdown].
  apply aggregate_rows in Hup as (Hlu & Hup), Hdown as (Hld & Hdown).
  split_and!; try done. intros i Hi.
  destruct (Hup i Hi) as (ru & Hru & Hsu), (Hdown i Hi) as (rd & Hrd & Hsd).
  split; intros Hiso.
  - by rewrite Hru, (sums_incoming_isolated _ _ _ _ _ _ Hiso Hsu).
  - by rewrite Hrd, (sums_incoming_isolated _ _ _ _ _ _ Hiso Hsd).
Qed.

(** C5.  In every result of [propagate] and for every simplex, the row of
    [up_msg] is the sum, started at the zero vector and taken in the order of
    the edges, of the messages of all the edges of [up_index] that point to
    the simplex, an edge that occurs several times being added as many
    times; and likewise for [down_msg] and [down_index]. *)
Theorem propagate_sums self up_index down_index x up_attr down_attr up down :
  propagate self up_index down_index x up_attr down_attr = Ok (up, down) ->
  forall i : nat, (i < length x)%nat ->
    exists ru rd,
      up !! i = Some ru /\ down !! i = Some rd /\
      sums_incoming zero add combine (up_msg_size self) x up_attr up_index i ru /\
      sums_incoming zero add combine (down_msg_size self) x down_attr down_index i rd.
Proof.
  intros H i Hi. apply propagate_Ok in H as [Hup Hdown].
  apply aggregate_rows in Hup as (_ & Hup), Hdown as (_ & Hdown).
  destruct (Hup i Hi) as (ru & Hru & Hsu), (Hdown i Hi) as (rd & Hrd & Hsd).
  eauto 10.
Qed.

Lemma aggregate_loop_total (width : nat) x attr (l : list (nat * (Z * Z))) out0 :
  length out0 = length x ->
  (forall e, e ∈ l -> 0 <= e.2.2 < Z.of_nat (length x) /\
     exists m, edge_message width x attr e.1 e.2.1 = Ok m) ->
  exists out, for_each
    (fun out (e : nat * (Z * Z)) =>
       m ← edge_message width x attr e.1 e.2.1;
       scatter_add add out e.2.2 m) out0 l = Ok out.
Proof.
  revert out0. induction l as [|e l IH]; intros out0 Hlen Hwf; simpl; [eauto|].
  destruct (Hwf e) as (Hdst & m & Hm); [left|].
  rewrite Hm. simpl. unfold scatter_add.
  destruct (lookup_lt_is_Some_2 out0 (Z.to_nat e.2.2)) as [r Hr]; [lia|].
  assert (row out0 e.2.2 = Ok r) as -> by (apply row_Ok; split; [lia|done]).
  simpl. apply IH; [by rewrite length_insert|].
  intros e' He'. apply Hwf. by right.
Qed.

(** [propagate] returns on every well-formed input, in particular when both
    indices are absent. *)
Lemma propagate_total self up_index down_index x up_attr down_attr :
  well_formed combine (up_msg_size self) x up_attr up_index ->
  well_formed combine (down_msg_size self) x down_attr down_index ->
  exists up down,
    propagate self up_index down_index x up_attr down_attr = Ok (up, down).
Proof.
  intros Hu Hd.
  assert (forall width attr index, well_formed combine width x attr index ->
            exists out, aggregate width index x attr = Ok out) as Hagg.
  { intros width attr [edges|] Hwf; simpl; [|eauto].
    apply aggregate_loop_total; [by rewrite length_replicate|done]. }
  destruct (Hagg _ _ _ Hu) as (up & Hup), (Hagg _ _ _ Hd) as (down & Hdown).
  exists up, down. by apply propagate_Ok.
Qed.

End EngineClaims.

(** ** The scenarios of [mp/test_smp.py] *)

Section Scenarios.
Import ChainMessagePassing TestData.

(** C4.  House graph at the edge level, with the indices, attributes and
    features of [test_propagate_in_cmp]: [propagate] returns, and
    [up_msg + down_msg] is [[14], [14], [16], [9], [10], [10]]. *)
Theorem house_graph_scenario :
  exists up_msg down_msg,
    run (Some house_up_index) (Some house_down_index) house_x
        (Some house_up_attr) (Some house_down_attr) = Ok (up_msg, down_msg) /\
    tensor_add Z.add up_msg down_msg = [[14]; [14]; [16]; [9]; [10]; [10]].
Proof.
  exists [[5]; [4]; [3]; [0]; [0]; [0]], [[9]; [10]; [13]; [9]; [10]; [10]].
  split; reflexivity.
Qed.

(** C6.  Two triangles sharing an edge, as in
    [test_propagate_at_triangle_level_in_cmp]: with [up_index = None],
    [propagate] returns, and [up_msg + down_msg] is [[17], [32]]. *)
Theorem two_triangles_scenario :
  exists up_msg down_msg,
    run None (Some two_triangles_down_index) two_triangles_x
        None (Some two_triangles_down_attr) = Ok (up_msg, down_msg) /\
    tensor_add Z.add up_msg down_msg = [[17]; [32]].
Proof.
  exists [[0]; [0]], [[17]; [32]]. split; reflexivity.
Qed.

(** [test_propagate_at_triangle_level_in_cmp_when_there_is_a_single_one]. *)
Example single_triangle_scenario :
  run None None [[1]] None None = Ok ([[0]], [[0]]).
Proof. reflexivity. Qed.

(** The combinator matters: adding the edge attribute to the source feature
    gives another result on the house graph. *)
Example house_graph_with_added_attributes :
  propagate 0 Z.add (zip_with Z.add) cmp (Some house_up_index)
    (Some house_down_index) house_x (Some house_up_attr) (Some house_down_attr)
  = Ok ([[8]; [8]; [8]; [0]; [0]; [0]], [[20]; [23]; [29]; [26]; [21]; [32]]).
Proof. reflexivity. Qed.

(** Duplicate edges are summed, not merged. *)
Example duplicate_edges_are_summed :
  run (Some [(0, 1); (0, 1); (0, 1)]) None [[5]; [7]] None None
  = Ok ([[0]; [15]], [[0]; [0]]).
Proof. reflexivity. Qed.

End Scenarios.

(** ** Concrete instances *)

Import ChainMessagePassing TestData.

(** The square with an isolated vertex: vertex 4 receives the zero vector
    from above, and every vertex receives it from below. *)
Lemma propagate_zero_rows_witness :
  run (Some square_dot_up_index) None square_dot_x None None
    = Ok ([[6]; [4]; [6]; [4]; [0]], [[0]; [0]; [0]; [0]; [0]]) /\
  [[6]; [4]; [6]; [4]; [0]] !! 4%nat = Some [0] /\
  [[0]; [0]; [0]; [0]; [0]] !! 4%nat = Some [0] /\
  [[0]; [0]; [0]; [0]; [0]] !! 0%nat = Some [0].
Proof.
  assert (run (Some square_dot_up_index) None square_dot_x None None
    = Ok ([[6]; [4]; [6]; [4]; [0]], [[0]; [0]; [0]; [0]; [0]])) as H by reflexivity.
  split; [exact H|].
  destruct (propagate_zero_rows 0 Z.add source_feature cmp _ _ _ _ _ _ _ H)
    as (_ & _ & Hrows).
  destruct (Hrows 4%nat ltac:(simpl; lia)) as [Hu Hd].
  destruct (Hrows 0%nat ltac:(simpl; lia)) as [_ Hd0].
  split; [apply Hu; reflexivity|]. split; [apply Hd; exact I|apply Hd0; exact I].
Defined.

(** Three copies of the edge 0 -> 1: the row of simplex 1 sums three
    messages. *)
Lemma propagate_sums_witness :
  exists ru rd,
    [[0]; [15]] !! 1%nat = Some ru /\ [[0]; [0]] !! 1%nat = Some rd /\
    sums_incoming 0 Z.add source_feature 1 [[5]; [7]] None
      (Some [(0, 1); (0, 1); (0, 1)]) 1 ru /\
    sums_incoming 0 Z.add source_feature 1 [[5]; [7]] None None 1 rd.
Proof.
  apply (propagate_sums 0 Z.add source_feature cmp
           (Some [(0, 1); (0, 1); (0, 1)]) None [[5]; [7]] None None
           [[0]; [15]] [[0]; [0]]).
  - reflexivity.
  - simpl. lia.
Defined.

Lemma consolidate_tables_aligned_witness :
  exists c, Complex.__init__ tri_nodes tri_edges tri_triangles None = Ok c /\
    faces_aligned c 0 /\ cofaces_aligned c 0.
Proof.
  eexists. split; [vm_compute; reflexivity|].
  eapply (consolidate_tables_aligned tri_nodes tri_edges tri_triangles None).
  - vm_compute; reflexivity.
  - cbn [Complex.min_order Complex.max_order]. lia.
Defined.

(** The tables of the single triangle. *)
Example single_triangle_tables :
  exists c, Complex.__init__ tri_nodes tri_edges tri_triangles None = Ok c /\
    Complex.shared_faces c ≫= (.!! 1) = Some [0; 0; 1; 1; 2; 2] /\
    Complex.shared_faces c ≫= (.!! 2) = Some [] /\
    Complex.shared_cofaces c ≫= (.!! 0) = Some [0; 0; 1; 1; 2; 2] /\
    Complex.shared_cofaces c ≫= (.!! 1) = Some [0; 0; 0; 0; 0; 0].
Proof.
  eexists. split; [vm_compute; reflexivity|]. split_and!; vm_compute; reflexivity.
Qed.

(** A lower link between two disjoint edges: the empty face is no simplex. *)
Lemma malformed_consolidation_raises_witness :
  raises (Complex.__init__ bad_nodes bad_edges no_triangles None).
Proof.
  apply malformed_consolidation_raises. left.
  exists [[0]; [1]; [2]; [3]], [[0; 1]; [2; 3]].
  eexists. exists [(0, 1)], (0, 1), [0; 1], [2; 3].
  split_and!.
  - reflexivity.
  - reflexivity.
  - vm_compute; reflexivity.
  - reflexivity.
  - by apply list_elem_of_singleton.
  - reflexivity.
  - reflexivity.
  - vm_compute; reflexivity.
Defined.

Example malformed_consolidation_error :
  Complex.__init__ bad_nodes bad_edges no_triangles None = Raise KeyError.
Proof. vm_compute; reflexivity. Qed.

Lemma construction_requires_fields_witness :
  raises (Complex.__init__ default_nodes tri_edges tri_triangles None) /\
  required_present tri_nodes tri_edges tri_triangles.
Proof.
  split.
  - apply (construction_requires_fields default_nodes tri_edges tri_triangles None).
    intros (Hm & _). by destruct Hm.
  - destruct (construction_requires_fields tri_nodes tri_edges tri_triangles None)
      as [H _].
    eapply H. vm_compute; reflexivity.
Defined.

Example construction_without_mapping :
  Complex.__init__ default_nodes tri_edges tri_triangles None = Raise AttributeError.
Proof. vm_compute; reflexivity. Qed.

Lemma consolidate_idempotent_witness :
  exists c c',
    Complex.__init__ tri_nodes tri_edges tri_triangles None = Ok c /\
    Complex._consolidate c = Ok c' /\ Complex._consolidate c' = Ok c' /\
    Complex.chains c' = Complex.chains c.
Proof.
  eexists _, _. split; [vm_compute; reflexivity|].
  assert (forall c c' : Complex.t Z Z, Complex._consolidate c = Ok c' ->
            Complex._consolidate c = Ok c' /\ Complex._consolidate c' = Ok c' /\
            Complex.chains c' = Complex.chains c) as H.
  { intros c c' Hc. destruct (consolidate_idempotent c c' Hc) as (? & ? & _). done. }
  apply H. vm_compute; reflexivity.
Defined.

Lemma unsupported_order_witness :
  exists c,
    Complex.__init__ tri_nodes tri_edges tri_triangles (Some 7) = Ok c /\
    Complex.get_inputs c 3 = Raise NotImplementedError /\
    Complex.get_labels c (Some (-1)) = Raise NotImplementedError /\
    Complex.get_inputs c 2 <> Raise NotImplementedError /\
    Complex.get_labels c None = Ok (Some 7).
Proof.
  destruct (Complex.__init__ tri_nodes tri_edges tri_triangles (Some 7)) as [c|err] eqn:Hc;
    [|exfalso; vm_compute in Hc; discriminate Hc].
  exists c. split; [reflexivity|].
  destruct (init_orders _ _ _ _ _ Hc) as [Hmin Hmax].
  destruct (unsupported_order _ _ _ _ _ 3 Hc) as (Hi & _ & _ & Hy).
  destruct (unsupported_order _ _ _ _ _ (-1) Hc) as (_ & Hl & _ & _).
  destruct (unsupported_order _ _ _ _ _ 2 Hc) as (Hi2 & _ & _ & _).
  rewrite Hmin, Hmax in Hi, Hl, Hi2.
  split_and!.
  - apply Hi. lia.
  - apply Hl. lia.
  - intros H. apply Hi2 in H. lia.
  - exact Hy.
Defined.

Lemma get_inputs_aligned_witness :
  exists c r,
    Complex.__init__ tri_nodes tri_edges tri_triangles None = Ok c /\
    Complex.get_inputs c 1 = Ok r /\
    upper_inputs c 1 r /\ lower_inputs c 1 r.
Proof.
  eexists _, _. split; [vm_compute; reflexivity|].
  split; [vm_compute; reflexivity|].
  match goal with |- upper_inputs ?c _ _ /\ _ =>
    assert (Complex.__init__ tri_nodes tri_edges tri_triangles None = Ok c) as Hc
      by (vm_compute; reflexivity)
  end.
  destruct (get_inputs_aligned _ _ _ _ _ 1 Hc) as [H _].
  { cbn [Complex.min_order Complex.max_order]. lia. }
  apply H. vm_compute; reflexivity.
Defined.

(** The inputs of the single triangle at the edge level. *)
Example single_triangle_inputs :
  exists c,
    Complex.__init__ tri_nodes tri_edges tri_triangles None = Ok c /\
    Complex.get_inputs c 1 =
      Ok {| Complex.in_x := Some [[10]; [20]; [30]];
            Complex.in_upper_index := Some all_pairs;
            Complex.in_upper_features :=
              Some [[100]; [100]; [100]; [100]; [100]; [100]];
            Complex.in_lower_index := Some all_pairs;
            Complex.in_lower_features := Some [[1]; [1]; [2]; [2]; [3]; [3]] |}.
Proof. eexists. split; vm_compute; reflexivity. Qed.

(** A mapping row stored as (1, 0) is entered in the reverse mapping under
    (1, 0); its sorted tuple (0, 1) is no key.  With no lower link that
    looks this edge up, the construction succeeds. *)
Lemma reverse_mapping_keeps_stored_order :
  exists c revs r,
    Complex.__init__ rev_nodes rev_edges no_triangles None = Ok c /\
    Complex.rev_mappings c = Ok revs /\ revs !! 1 = Some r /\
    Chain.mapping rev_edges = Some [[1; 0]] /\
    r !! merge_sort Z.le [1; 0] = None /\ r !! [1; 0] = Some 0.
Proof.
  eexists _, _, _. split; [vm_compute; reflexivity|].
  split; [vm_compute; reflexivity|].
  split; [vm_compute; reflexivity|].
  split_and!; vm_compute; reflexivity.
Qed.

(** C2.  The reverse mapping is not keyed by the sorted node tuple of each
    simplex: [_consolidate] enters each row as it is stored, and only the
    face lookup sorts.  Two triangles that share the edge of nodes 0 and 1,
    stored as (1, 0): the reverse mapping of the edges has the key (1, 0)
    and not the sorted tuple (0, 1); the face of the two triangles is looked
    up under (0, 1), and the construction raises [KeyError] although the
    shared edge is a simplex of the complex.  With the same edge stored as
    (0, 1) the construction succeeds and [shared_faces[2]] holds the id 0 of
    that edge for both links. *)
Theorem unsorted_row_breaks_face_lookup :
  Chain.mapping (kite_edges [1; 0]) = Some [[1; 0]; [0; 2]; [1; 2]; [0; 3]; [1; 3]] /\
  (exists r, Complex.rev_mapping [[1; 0]; [0; 2]; [1; 2]; [0; 3]; [1; 3]] = Ok r /\
     r !! [1; 0] = Some 0 /\ r !! merge_sort Z.le [1; 0] = None) /\
  sorted_intersection [0; 1; 2] [0; 1; 3] = merge_sort Z.le [1; 0] /\
  Complex.__init__ kite_nodes (kite_edges [1; 0]) kite_triangles None
    = Raise KeyError /\
  exists c,
    Complex.__init__ kite_nodes (kite_edges [0; 1]) kite_triangles None = Ok c /\
    Complex.shared_faces c ≫= (.!! 2) = Some [0; 0].
Proof.
  split; [reflexivity|].
  split; [eexists; split_and!; vm_compute; reflexivity|].
  split; [vm_compute; reflexivity|].
  split; [vm_compute; reflexivity|].
  eexists. split; vm_compute; reflexivity.
Qed.

(** Against C3 as stated: with the triangle features absent, [get_inputs(1)]
    returns no upper features but still the upper index; and with an edge
    feature matrix of a single row, [get_inputs(0)] returns nothing at all:
    the gather raises. *)
Lemma get_inputs_counterexample :
  (exists c r,
     Complex.__init__ tri_nodes tri_edges tri_triangles_no_x None = Ok c /\
     Chain.x tri_triangles_no_x = None /\
     Complex.get_inputs c 1 = Ok r /\
     Complex.in_upper_features r = None /\
     Complex.in_upper_index r = Some all_pairs) /\
  (exists c,
     Complex.__init__ tri_nodes tri_edges_short_x tri_triangles None = Ok c /\
     Complex.get_inputs c 0 = Raise IndexError).
Proof.
  split.
  - eexists _, _. split; [vm_compute; reflexivity|].
    split; [reflexivity|]. split; [vm_compute; reflexivity|]. split; reflexivity.
  - eexists. split; vm_compute; reflexivity.
Qed.

(** Against C10 as stated: a complex of a single vertex is constructed
    although [upper_adjs] is [None] in the chains of orders 0 and 1. *)
Lemma upper_adjs_not_read_without_upper_links :
  exists c,
    Complex.__init__ dot_nodes dot_edges no_triangles None = Ok c /\
    Chain.upper_adjs dot_nodes = None /\ Chain.upper_adjs dot_edges = None.
Proof. eexists. split; [vm_compute; reflexivity|]. split; reflexivity. Qed.


(** * Further properties of [data.py] *)

Lemma bind_Raise {A B} (m : result A) (k : A -> result B) (e : exn) :
  m ≫= k = Raise e <-> m = Raise e \/ exists a, m = Ok a /\ k a = Raise e.
Proof.
  destruct m as [a|e']; simpl; split.
  - intros H; right; exists a; done.
  - intros [[=]|(a' & [= <-] & H)]; done.
  - intros [= ->]; by left.
  - intros [[= ->]|(a' & [=] & _)]; done.
Qed.

Lemma index_select_Raise {A} (f : list A) index err :
  index_select f index = Raise err -> err = IndexError.
Proof.
  induction index as [|i index IH]; simpl; [done|].
  destruct (decide _); [|by intros [= <-]].
  destruct (f !! _); [|by intros [= <-]].
  intros H. apply bind_Raise in H as [H | (rows & _ & [=])]. by apply IH.
Qed.

Lemma Forall2_exists_iff {A B} (R : A -> B -> Prop) (l : list A) :
  (exists k, Forall2 R l k) <-> Forall (fun x => exists y, R x y) l.
Proof.
  split.
  - intros (k & HF). induction HF; constructor; eauto.
  - induction 1 as [|x l [y Hy] _ (k & IH)]; [exists []; constructor|].
    exists (y :: k). by constructor.
Qed.

(** ** The reverse mapping *)

(** X1.  Building the reverse mapping of a chain never raises; its keys are
    exactly the rows of the mapping tensor, and the id stored under a key is
    the index of a row equal to that key. *)
Theorem rev_mapping_domain (m : list (list Z)) :
  exists r, Complex.rev_mapping m = Ok r /\
    (forall key, is_Some (r !! key) <-> key ∈ m) /\
    (forall key k, r !! key = Some k ->
       0 <= k < Z.of_nat (length m) /\ m !! Z.to_nat k = Some key).
Proof.
  destruct (rev_mapping_spec m) as (r & Hr & Hkeyed).
  exists r. split; [done|]. split.
  - intros key. split.
    + intros [k Hk]. apply Hkeyed in Hk as (_ & Hm & _).
      apply list_elem_of_lookup. eauto.
    + intros Hin.
      assert (forall n : nat, (exists i : nat, (i < n)%nat /\ m !! i = Some key) ->
                exists k : nat, m !! k = Some key /\
                  forall j : nat, (k < j < n)%nat -> m !! j <> Some key) as Hlast.
      { induction n as [|n IH]; [intros (i & Hi & _); lia|].
        intros (i & Hi & Hm).
        destruct (decide (m !! n = Some key)) as [Hn|Hn].
        - exists n. split; [done|]. lia.
        - destruct IH as (k & Hk & Hlast).
          { exists i. split; [|done]. destruct (decide (i = n)) as [->|]; [done|lia]. }
          exists k. split; [done|]. intros j Hj.
          destruct (decide (j = n)) as [->|]; [done|]. apply Hlast. lia. }
      apply list_elem_of_lookup in Hin as [i Hi].
      destruct (Hlast (length m)) as (k & Hk & Hl).
      { exists i. split; [by eapply lookup_lt_Some|done]. }
      exists (Z.of_nat k). apply Hkeyed. unfold last_row. rewrite Nat2Z.id.
      split; [lia|]. split; [done|]. intros j Hj.
      destruct (decide (j < length m)%nat); [apply Hl; lia|].
      rewrite lookup_ge_None_2; [done|lia].
  - intros key k Hk. split; [by eapply rev_mapping_range|].
    by apply Hkeyed in Hk as (_ & Hm & _).
Qed.

(** X2.  When the rows of the mapping tensor are pairwise distinct, looking
    up row [k] in the reverse mapping gives back [k]. *)
Theorem rev_mapping_round_trip (m : list (list Z)) r (k : nat) row :
  NoDup m -> Complex.rev_mapping m = Ok r -> m !! k = Some row ->
  r !! row = Some (Z.of_nat k).
Proof.
  intros Hnd Hr Hk. apply (rev_mapping_keyed m r Hr). unfold last_row.
  rewrite Nat2Z.id. split; [lia|]. split; [done|].
  intros j Hj Hrow. pose proof (NoDup_lookup _ _ _ _ Hnd Hk Hrow). lia.
Qed.

(** ** The key of a shared face *)

Lemma elem_of_sorted_intersection (ra rb : list Z) (x : Z) :
  x ∈ sorted_intersection ra rb <-> x ∈ ra /\ x ∈ rb.
Proof.
  unfold sorted_intersection.
  rewrite merge_sort_Permutation, elem_of_elements, elem_of_intersection,
    !elem_of_list_to_set. done.
Qed.

Lemma sorted_intersection_comm (ra rb : list Z) :
  sorted_intersection ra rb = sorted_intersection rb ra.
Proof. unfold sorted_intersection. by rewrite (comm_L (∩)). Qed.

Lemma sorted_intersection_increasing (ra rb : list Z) :
  StronglySorted Z.lt (sorted_intersection ra rb).
Proof.
  unfold sorted_intersection.
  set (s := list_to_set ra ∩ list_to_set rb : gset Z).
  assert (StronglySorted Z.le (merge_sort Z.le (elements s))) as Hs
    by apply (StronglySorted_merge_sort _).
  assert (NoDup (merge_sort Z.le (elements s))) as Hnd.
  { rewrite merge_sort_Permutation. apply NoDup_elements. }
  revert Hs Hnd. generalize (merge_sort Z.le (elements s)). intros l.
  induction 1 as [|x l Hs IH Hx]; intros Hnd; [constructor|].
  apply NoDup_cons in Hnd as [Hni Hnd]. constructor; [by apply IH|].
  apply Forall_forall. intros y Hy.
  pose proof (proj1 (Forall_forall _ _) Hx y Hy).
  assert (x <> y) by (intros ->; done). lia.
Qed.

(** X3.  The key [tuple(sorted(nodes_a & nodes_b))] holds exactly the nodes
    common to the two rows, in strictly increasing order, and does not
    depend on which of the two rows comes first. *)
Theorem sorted_intersection_spec (ra rb : list Z) :
  (forall x, x ∈ sorted_intersection ra rb <-> x ∈ ra /\ x ∈ rb) /\
  StronglySorted Z.lt (sorted_intersection ra rb) /\
  sorted_intersection ra rb = sorted_intersection rb ra.
Proof.
  split_and!.
  - intros x. apply elem_of_sorted_intersection.
  - apply sorted_intersection_increasing.
  - apply sorted_intersection_comm.
Qed.

(** ** The tables of a constructed complex *)

Section TablesExtras.
Context {scalar label : Type}.

#[local] Abbreviation chain := (Chain.t scalar label).

Lemma constructed_faces (n e t : chain) y c k up L sf :
  Complex.__init__ n e t y = Ok c ->
  Complex.chains c !! (k + 1) = Some up ->
  Chain.lower_index up = Some L ->
  Complex.shared_faces c ≫= (.!! (k + 1)) = Some sf ->
  exists lo m_lo m_up r,
    Complex.chains c !! k = Some lo /\
    Chain.mapping lo = Some m_lo /\ Chain.mapping up = Some m_up /\
    Complex.rev_mapping m_lo = Ok r /\
    Forall2 (face_entry r m_up) L sf.
Proof.
  intros Hc. apply init_Ok in Hc
    as (m0 & m1 & m2 & r0 & r1 & r2 & L1 & L2 & U0 & U1 & sf1 & sf2 & sc0 & sc1 &
        Hm0 & Hm1 & Hm2 & Hr0 & Hr1 & Hr2 & HL1 & HL2 & HU0 & HU1 &
        F1 & C0 & F2 & C1 & ->).
  simpl. intros Hup HL Hsf.
  assert (k = 0 \/ k = 1) as [-> | ->].
  { destruct (decide (k + 1 = 2)); [lia|]. destruct (decide (k + 1 = 1)); [lia|].
    rewrite !lookup_insert_ne, lookup_empty in Hsf by done. done. }
  - rewrite chains_lookup in *. simpl in *. simplify_map_eq.
    exists n, m0, m1, r0. done.
  - rewrite chains_lookup in *. simpl in *. simplify_map_eq.
    exists e, m1, m2, r1. done.
Qed.

Lemma constructed_cofaces (n e t : chain) y c k lo U sc :
  Complex.__init__ n e t y = Ok c ->
  Complex.chains c !! k = Some lo ->
  Chain.upper_index lo = Some U ->
  Complex.shared_cofaces c ≫= (.!! k) = Some sc ->
  exists up m_lo m_up r,
    Complex.chains c !! (k + 1) = Some up /\
    Chain.mapping lo = Some m_lo /\ Chain.mapping up = Some m_up /\
    Complex.rev_mapping m_up = Ok r /\
    Forall2 (coface_entry r m_lo (Chain.upper_adjs lo)) U sc.
Proof.
  intros Hc. apply init_Ok in Hc
    as (m0 & m1 & m2 & r0 & r1 & r2 & L1 & L2 & U0 & U1 & sf1 & sf2 & sc0 & sc1 &
        Hm0 & Hm1 & Hm2 & Hr0 & Hr1 & Hr2 & HL1 & HL2 & HU0 & HU1 &
        F1 & C0 & F2 & C1 & ->).
  simpl. intros Hlo HU Hsc.
  assert (k = 0 \/ k = 1) as [-> | ->].
  { destruct (decide (k = 1)); [lia|]. destruct (decide (k = 0)); [lia|].
    rewrite !lookup_insert_ne, lookup_empty in Hsc by done. done. }
  - rewrite chains_lookup in *. simpl in *. simplify_map_eq.
    exists e, m0, m1, r1. done.
  - rewrite chains_lookup in *. simpl in *. simplify_map_eq.
    exists t, m1, m2, r2. done.
Qed.

(** X4.  In a constructed complex, when the lower index of a chain holds
    both the link (a, b) and the link (b, a), the table [shared_faces] has
    the same face id at the two positions. *)
Theorem shared_faces_symmetric (n e t : chain) y c k up L sf (i j : nat) a b :
  Complex.__init__ n e t y = Ok c ->
  Complex.chains c !! (k + 1) = Some up ->
  Chain.lower_index up = Some L ->
  Complex.shared_faces c ≫= (.!! (k + 1)) = Some sf ->
  L !! i = Some (a, b) -> L !! j = Some (b, a) ->
  is_Some (sf !! i) /\ sf !! i = sf !! j.
Proof.
  intros Hc Hup HL Hsf Hi Hj.
  destruct (constructed_faces _ _ _ _ _ _ _ _ _ Hc Hup HL Hsf)
    as (lo & m_lo & m_up & r & _ & _ & _ & _ & HF).
  destruct (Forall2_lookup_l _ _ _ _ _ HF Hi) as (id & Hid & na & nb & Ha & Hb & Hkey).
  destruct (Forall2_lookup_l _ _ _ _ _ HF Hj)
    as (id' & Hid' & na' & nb' & Ha' & Hb' & Hkey').
  simpl in *. rewrite Hid, Hid'. split; [done|].
  assert (na' = nb) as -> by congruence. assert (nb' = na) as -> by congruence.
  rewrite sorted_intersection_comm in Hkey. congruence.
Qed.

(** X5.  In a constructed complex, the id that [shared_faces] holds for a
    lower link (a, b) indexes a row of the mapping one order below, and that
    row is the sorted intersection of the rows of [a] and [b]: the nodes of
    the shared face are exactly the nodes common to the two simplices. *)
Theorem shared_face_is_intersection (n e t : chain) y c k up L sf (i : nat) a b id :
  Complex.__init__ n e t y = Ok c ->
  Complex.chains c !! (k + 1) = Some up ->
  Chain.lower_index up = Some L ->
  Complex.shared_faces c ≫= (.!! (k + 1)) = Some sf ->
  L !! i = Some (a, b) -> sf !! i = Some id ->
  exists lo m_lo m_up nodes_a nodes_b face,
    Complex.chains c !! k = Some lo /\
    Chain.mapping lo = Some m_lo /\ Chain.mapping up = Some m_up /\
    tensor_getitem m_up a = Ok nodes_a /\ tensor_getitem m_up b = Ok nodes_b /\
    0 <= id /\ m_lo !! Z.to_nat id = Some face /\
    face = sorted_intersection nodes_a nodes_b /\
    forall x, x ∈ face <-> x ∈ nodes_a /\ x ∈ nodes_b.
Proof.
  intros Hc Hup HL Hsf Hi Hid.
  destruct (constructed_faces _ _ _ _ _ _ _ _ _ Hc Hup HL Hsf)
    as (lo & m_lo & m_up & r & Hlo & Hmlo & Hmup & Hr & HF).
  destruct (Forall2_lookup_l _ _ _ _ _ HF Hi) as (id' & Hid' & na & nb & Ha & Hb & Hkey).
  assert (id' = id) as -> by congruence. simpl in *.
  apply (rev_mapping_keyed _ _ Hr) in Hkey as (H0 & Hrow & _).
  exists lo, m_lo, m_up, na, nb, (sorted_intersection na nb).
  split_and!; try done. intros x. apply elem_of_sorted_intersection.
Qed.

(** X6.  In a constructed complex, the id that [shared_cofaces] holds for an
    upper link (a, b) indexes a row of the mapping one order above, and that
    row is the tuple [upper_adjs[nodes_a][nodes_b]]. *)
Theorem shared_coface_is_upper_adj (n e t : chain) y c k lo U sc (i : nat) a b id :
  Complex.__init__ n e t y = Ok c ->
  Complex.chains c !! k = Some lo ->
  Chain.upper_index lo = Some U ->
  Complex.shared_cofaces c ≫= (.!! k) = Some sc ->
  U !! i = Some (a, b) -> sc !! i = Some id ->
  exists up m_lo m_up nodes_a nodes_b adjs adjs_a coface,
    Complex.chains c !! (k + 1) = Some up /\
    Chain.mapping lo = Some m_lo /\ Chain.mapping up = Some m_up /\
    tensor_getitem m_lo a = Ok nodes_a /\ tensor_getitem m_lo b = Ok nodes_b /\
    Chain.upper_adjs lo = Some adjs /\ adjs !! nodes_a = Some adjs_a /\
    adjs_a !! nodes_b = Some coface /\
    0 <= id /\ m_up !! Z.to_nat id = Some coface.
Proof.
  intros Hc Hlo HU Hsc Hi Hid.
  destruct (constructed_cofaces _ _ _ _ _ _ _ _ _ Hc Hlo HU Hsc)
    as (up & m_lo & m_up & r & Hup & Hmlo & Hmup & Hr & HF).
  destruct (Forall2_lookup_l _ _ _ _ _ HF Hi)
    as (id' & Hid' & na & nb & adjs & adjs_a & coface &
        Ha & Hb & Hadjs & Hadjs_a & Hco & Hkey).
  assert (id' = id) as -> by congruence. simpl in *.
  apply (rev_mapping_keyed _ _ Hr) in Hkey as (H0 & Hrow & _).
  exists up, m_lo, m_up, na, nb, adjs, adjs_a, coface. split_and!; done.
Qed.

End TablesExtras.

(** ** Construction and queries of a complex *)

Section ComplexExtras.
Context {scalar label : Type}.

#[local] Abbreviation chain := (Chain.t scalar label).

Lemma gather_Raise (features : option (list (list scalar)))
    (T : gmap Z (list Z)) (order : Z) (table : list Z) err :
  T !! order = Some table ->
  Complex.gather features (Some T) order = Raise err -> err = IndexError.
Proof.
  intros HT. unfold Complex.gather. destruct features as [f|]; [|done].
  simpl. apply dict_getitem_Ok in HT. rewrite HT. simpl. intros H.
  apply bind_Raise in H as [H | (rows & _ & [=])]. by eapply index_select_Raise.
Qed.

Lemma get_inputs_Raise_kind (n e t : chain) y c order err :
  consolidated n e t y c ->
  Complex.get_inputs c order = Raise err ->
  (err = NotImplementedError /\ ~ (0 <= order <= 2)) \/
  (err = IndexError /\ 0 <= order <= 2).
Proof.
  intros (m0 & m1 & m2 & r0 & r1 & r2 & L1 & L2 & U0 & U1 & sf1 & sf2 & sc0 & sc1 &
        Hm0 & Hm1 & Hm2 & Hr0 & Hr1 & Hr2 & HL1 & HL2 & HU0 & HU1 &
        F1 & C0 & F2 & C1 & ->).
  unfold Complex.get_inputs.
  cbn [Complex.chains Complex.min_order Complex.max_order Complex.shared_faces
       Complex.shared_cofaces].
  destruct (chains_getitem n e t) as (G0 & G1 & G2).
  rewrite chains_lookup.
  destruct (decide (order = 0)) as [->|]; [|destruct (decide (order = 1)) as [->|];
    [|destruct (decide (order = 2)) as [->|]]].
  - simpl decide. cbv iota. change (0 + 1) with 1. rewrite G1. simpl. intros H.
    right. split; [|lia].
    apply bind_Raise in H as [H | (up & _ & [=])].
    apply bind_Raise in H as [H | (out & _ & [=])].
    eapply gather_Raise; [|exact H]. by simplify_map_eq.
  - simpl decide. cbv iota. change (1 + 1) with 2. change (1 - 1) with 0.
    rewrite G2, G0. simpl. intros H. right. split; [|lia].
    apply bind_Raise in H as [H | (up & _ & H)].
    + apply bind_Raise in H as [H | (out & _ & [=])].
      eapply gather_Raise; [|exact H]. by simplify_map_eq.
    + apply bind_Raise in H as [H | (down & _ & [=])].
      apply bind_Raise in H as [H | (out & _ & [=])].
      eapply gather_Raise; [|exact H]. by simplify_map_eq.
  - simpl decide. cbv iota. change (2 - 1) with 1. rewrite G1. simpl. intros H.
    right. split; [|lia].
    apply bind_Raise in H as [H | (down & _ & [=])].
    apply bind_Raise in H as [H | (out & _ & [=])].
    eapply gather_Raise; [|exact H]. by simplify_map_eq.
  - intros [= <-]. left. split; [done|lia].
Qed.

(** X8.  On a constructed complex [get_inputs] can fail in two ways only:
    with the unsupported-order error, for an order outside 0..2, or with an
    index error of the feature gather, for an order inside 0..2 and only
    when some table entry points past the feature rows of a chain. *)
Theorem get_inputs_errors (n e t : chain) (y : option label) c order err :
  Complex.__init__ n e t y = Ok c ->
  Complex.get_inputs c order = Raise err ->
  (err = NotImplementedError /\ ~ (0 <= order <= 2)) \/
  (err = IndexError /\ 0 <= order <= 2 /\
   ~ (rows_cover n /\ rows_cover e /\ rows_cover t)).
Proof.
  intros Hc Herr. apply init_Ok in Hc.
  destruct (get_inputs_Raise_kind _ _ _ _ _ _ _ Hc Herr) as [H | [-> Hin]]; [by left|].
  right. split; [done|]. split; [done|]. intros (Hn & He & Ht).
  destruct (get_inputs_total n e t y c order Hc Hn He Ht) as (r & Hr).
  - destruct Hc as (? & ? & ? & ? & ? & ? & ? & ? & ? & ? & ? & ? & ? & ? &
      _ & _ & _ & _ & _ & _ & _ & _ & _ & _ & _ & _ & _ & _ & ->). simpl. lia.
  - congruence.
Qed.

(** X9.  When the [mapping] of one of the three chains is [None], the
    construction of the complex raises [AttributeError], whatever the other
    fields hold. *)
Theorem missing_mapping_attribute_error (n e t : chain) (y : option label) :
  Chain.mapping n = None \/ Chain.mapping e = None \/ Chain.mapping t = None ->
  Complex.__init__ n e t y = Raise AttributeError.
Proof.
  intros Hmiss. unfold Complex.__init__, Complex._consolidate, Complex.rev_mappings.
  cbn [Complex.chains Complex.min_order Complex.max_order].
  change (range 0 (2 + 1)) with [0; 1; 2]. cbn [for_each].
  destruct (chains_getitem n e t) as (-> & -> & ->).
  cbn [mbind result_bind].
  destruct (Chain.mapping n) as [m0|]; [|reflexivity].
  destruct (rev_mapping_spec m0) as (r0 & Hr0 & _).
  cbn [attr mbind result_bind]. rewrite Hr0. cbn [mbind result_bind].
  destruct (Chain.mapping e) as [m1|]; [|reflexivity].
  destruct (rev_mapping_spec m1) as (r1 & Hr1 & _).
  cbn [attr mbind result_bind]. rewrite Hr1. cbn [mbind result_bind].
  destruct (Chain.mapping t) as [m2|]; [|reflexivity].
  destruct Hmiss as [? | [? | ?]]; done.
Qed.

(** X11.  Chains that have their mappings and empty adjacency indices always
    construct, whatever their [upper_adjs]; the tables of the complex then
    hold an empty tensor for each of the orders they cover. *)
Theorem empty_adjacency_constructs (n e t : chain) (y : option label) :
  is_Some (Chain.mapping n) -> is_Some (Chain.mapping e) -> is_Some (Chain.mapping t) ->
  Chain.lower_index e = Some [] -> Chain.lower_index t = Some [] ->
  Chain.upper_index n = Some [] -> Chain.upper_index e = Some [] ->
  exists c, Complex.__init__ n e t y = Ok c /\
    Complex.shared_faces c = Some (<[2 := []]> (<[1 := []]> ∅)) /\
    Complex.shared_cofaces c = Some (<[1 := []]> (<[0 := []]> ∅)).
Proof.
  intros [m0 Hm0] [m1 Hm1] [m2 Hm2] HL1 HL2 HU0 HU1.
  destruct (rev_mapping_spec m0) as (r0 & Hr0 & _).
  destruct (rev_mapping_spec m1) as (r1 & Hr1 & _).
  destruct (rev_mapping_spec m2) as (r2 & Hr2 & _).
  eexists. split.
  - apply init_Ok. exists m0, m1, m2, r0, r1, r2, [], [], [], [], [], [], [], [].
    split_and!; try done; constructor.
  - done.
Qed.

(** X12.  The construction of a complex succeeds exactly when every chain
    has its mapping, the adjacency indices read are present, and every link
    has a face, respectively a coface, that is a key of the reverse mapping
    it is looked up in. *)
Theorem construction_succeeds_iff (n e t : chain) (y : option label) :
  (exists c, Complex.__init__ n e t y = Ok c) <-> constructible n e t.
Proof.
  split.
  - intros (c & Hc). apply init_Ok in Hc
      as (m0 & m1 & m2 & r0 & r1 & r2 & L1 & L2 & U0 & U1 & sf1 & sf2 & sc0 & sc1 &
        Hm0 & Hm1 & Hm2 & Hr0 & Hr1 & Hr2 & HL1 & HL2 & HU0 & HU1 &
        F1 & C0 & F2 & C1 & ->).
    exists m0, m1, m2, r0, r1, r2, L1, L2, U0, U1.
    split_and!; try done; apply Forall2_exists_iff; eauto.
  - intros (m0 & m1 & m2 & r0 & r1 & r2 & L1 & L2 & U0 & U1 &
        Hm0 & Hm1 & Hm2 & Hr0 & Hr1 & Hr2 & HL1 & HL2 & HU0 & HU1 &
        F1 & C0 & F2 & C1).
    apply Forall2_exists_iff in F1 as (sf1 & F1), C0 as (sc0 & C0),
      F2 as (sf2 & F2), C1 as (sc1 & C1).
    eexists. apply init_Ok.
    exists m0, m1, m2, r0, r1, r2, L1, L2, U0, U1, sf1, sf2, sc0, sc1.
    split_and!; done.
Qed.

End ComplexExtras.

(** * Properties of [data/datasets/flow.py] *)

Lemma elem_of_range (lo hi x : Z) : x ∈ range lo hi <-> lo <= x < hi.
Proof.
  unfold range. rewrite list_elem_of_fmap. split.
  - intros (i & -> & Hi). apply elem_of_seq in Hi. lia.
  - intros Hx. exists (Z.to_nat (x - lo)). split; [lia|]. apply elem_of_seq. lia.
Qed.

Lemma NoDup_range (lo hi : Z) : NoDup (range lo hi).
Proof.
  unfold range. apply NoDup_fmap_2; [|apply NoDup_seq]. intros i j Hij. lia.
Qed.

Lemma length_range (lo hi : Z) : length (range lo hi) = Z.to_nat (hi - lo).
Proof. unfold range. by rewrite length_fmap, length_seq. Qed.

Lemma lookup_range (lo hi : Z) (i : nat) :
  (i < Z.to_nat (hi - lo))%nat -> range lo hi !! i = Some (lo + Z.of_nat i).
Proof.
  intros Hi. unfold range. rewrite list_lookup_fmap, lookup_seq_lt by done. done.
Qed.

Lemma range_app (lo mid hi : Z) :
  lo <= mid <= hi -> range lo mid ++ range mid hi = range lo hi.
Proof.
  intros H. apply list_eq. intros i.
  destruct (decide (i < Z.to_nat (mid - lo))%nat) as [Hi|Hi].
  - rewrite lookup_app_l by (rewrite length_range; lia).
    rewrite !lookup_range by lia. done.
  - rewrite lookup_app_r by (rewrite length_range; lia). rewrite length_range.
    destruct (decide (i < Z.to_nat (hi - lo))%nat).
    + rewrite !lookup_range by lia. f_equal. lia.
    + rewrite !lookup_ge_None_2; [done|rewrite length_range; lia..].
Qed.

(** strings *)
Lemma list_ascii_of_string_app (s1 s2 : string) :
  String.list_ascii_of_string (s1 +:+ s2) =
  (String.list_ascii_of_string s1 ++ String.list_ascii_of_string s2)%list.
Proof. induction s1 as [|c s1 IH]; simpl; [done|]. by rewrite IH. Qed.

Lemma string_app_inv_tail (s1 s2 t : string) : s1 +:+ t = s2 +:+ t -> s1 = s2.
Proof.
  intros H. apply (f_equal String.list_ascii_of_string) in H.
  rewrite !list_ascii_of_string_app in H. apply app_inv_tail in H.
  apply (f_equal String.string_of_list_ascii) in H.
  by rewrite !String.string_of_list_ascii_of_string in H.
Qed.

Lemma string_app_suffixes_differ (s1 s2 t1 t2 : string) (k : nat) :
  (k <= String.length t1)%nat -> (k <= String.length t2)%nat ->
  take k (reverse (String.list_ascii_of_string t1)) <>
  take k (reverse (String.list_ascii_of_string t2)) ->
  s1 +:+ t1 <> s2 +:+ t2.
Proof.
  intros H1 H2 Hne H. apply Hne.
  apply (f_equal String.list_ascii_of_string) in H.
  rewrite !list_ascii_of_string_app in H.
  apply (f_equal (fun l => take k (reverse l))) in H. simpl in H.
  assert (forall u : string, length (String.list_ascii_of_string u) = String.length u)
    as Hlen.
  { induction u as [|c u IH]; simpl; [done|]. by rewrite IH. }
  rewrite !reverse_app, !take_app_le in H by (rewrite length_reverse, Hlen; lia).
  done.
Qed.

Section FlowExtras.
Import FlowDataset.
Context {complex graph : Type}.
Context (load_flow_dataset : Z -> Z -> Z -> list complex * list complex * graph).

#[local] Abbreviation obj := (FlowDataset.obj complex graph).

Lemma io_bind_Done {A B} (m : io A) (k : A -> io B) (b : B) :
  m ≫= k = Done b <-> exists a, m = Done a /\ k a = Done b.
Proof.
  destruct m as [a|e]; simpl; split.
  - intros H; exists a; done.
  - intros (a' & [= <-] & H); done.
  - done.
  - intros (a' & [=] & _).
Qed.

Lemma list_range_Done (start stop : Z) (l : list Z) :
  list_range start stop = Done l <-> stop - start < 2 ^ 63 /\ l = range start stop.
Proof.
  unfold list_range. destruct (decide _) as [Hbig|Hsmall]; split.
  - done.
  - intros [Hlt _]. lia.
  - intros [= <-]. split; [lia|done].
  - by intros [_ ->].
Qed.

(** What a successful construction has read and built. *)
Lemma init_inv (paths : list string) (fs : gmap string obj) name np tr va lg ds :
  FlowDataset.__init__ paths fs name np tr va lg = Done ds ->
  (exists p0, paths !! 0%nat = Some p0 /\ fs !! p0 = Some (_data_list ds)) /\
  (if lg then exists p1 g, paths !! 1%nat = Some p1 /\ fs !! p1 = Some g /\
                G ds = Some g
   else G ds = None) /\
  tr < 2 ^ 63 /\ va < 2 ^ 63 /\
  train_ids ds = range 0 tr /\ val_ids ds = range tr (tr + va) /\
  test_ids ds = None /\ attrs ds = init_config name np tr va.
Proof.
  unfold FlowDataset.__init__. intros H.
  apply io_bind_Done in H as (p0 & Hp0 & H).
  apply io_bind_Done in H as (dl & Hdl & H).
  apply io_bind_Done in H as (g & Hg & H).
  apply io_bind_Done in H as (tids & Ht & H).
  apply io_bind_Done in H as (vids & Hv & [= <-]).
  apply list_range_Done in Ht as [Htr ->]. apply list_range_Done in Hv as [Hva ->].
  unfold getitem in Hp0. unfold load in Hdl. simpl.
  destruct (paths !! 0%nat) as [q|] eqn:E0; [|done]. injection Hp0 as ->.
  destruct (fs !! p0) as [o|] eqn:F0; [|done]. injection Hdl as ->.
  split; [by exists p0|]. split; [|split_and!; try done; lia].
  destruct lg.
  - apply io_bind_Done in Hg as (p1 & Hp1 & Hg).
    apply io_bind_Done in Hg as (g' & Hg' & [= <-]).
    unfold getitem in Hp1. unfold load in Hg'.
    destruct (paths !! 1%nat) as [q|] eqn:E1; [|done]. injection Hp1 as ->.
    destruct (fs !! p1) as [o|] eqn:F1; [|done]. injection Hg' as ->.
    by exists p1, g'.
  - by injection Hg as <-.
Qed.

Lemma init_ids (paths : list string) (fs : gmap string obj) name np tr va lg ds :
  FlowDataset.__init__ paths fs name np tr va lg = Done ds ->
  train_ids ds = range 0 tr /\ val_ids ds = range tr (tr + va) /\
  test_ids ds = None /\ attrs ds = init_config name np tr va.
Proof. intros H. by apply init_inv in H as (_ & _ & _ & _ & H). Qed.

(** X13.  A constructed dataset has the training ids [0, train_samples) and
    the validation ids [train_samples, train_samples + val_samples); no id
    occurs twice in the two lists together, and there are no test ids. *)
Theorem split_ids_disjoint (paths : list string) (fs : gmap string obj)
    name np tr va lg ds :
  FlowDataset.__init__ paths fs name np tr va lg = Done ds ->
  (forall i, i ∈ train_ids ds <-> 0 <= i < tr) /\
  (forall i, i ∈ val_ids ds <-> tr <= i < tr + va) /\
  NoDup (train_ids ds ++ val_ids ds) /\
  test_ids ds = None.
Proof.
  intros H. apply init_ids in H as (-> & -> & -> & _).
  split_and!; try done.
  - intros i. apply elem_of_range.
  - intros i. apply elem_of_range.
  - apply NoDup_app. split_and!; [apply NoDup_range| |apply NoDup_range].
    intros i. rewrite !elem_of_range. lia.
Qed.

(** X14.  For sample counts that are not negative, the training ids followed
    by the validation ids are [range(train_samples + val_samples)], with
    [train_samples] training and [val_samples] validation ids. *)
Theorem split_ids_cover (paths : list string) (fs : gmap string obj)
    name np tr va lg ds :
  FlowDataset.__init__ paths fs name np tr va lg = Done ds ->
  0 <= tr -> 0 <= va ->
  train_ids ds ++ val_ids ds = range 0 (tr + va) /\
  length (train_ids ds) = Z.to_nat tr /\ length (val_ids ds) = Z.to_nat va.
Proof.
  intros H Htr Hva. apply init_ids in H as (-> & -> & _).
  rewrite range_app by lia. rewrite !length_range. split_and!; [done|f_equal; lia..].
Qed.

Lemma process_Done (cfg_name : string) (np tr va : Z) (paths : list string)
    (p0 p1 : string) (fs : gmap string obj) train val g :
  paths !! 0%nat = Some p0 -> paths !! 1%nat = Some p1 ->
  load_flow_dataset np tr va = (train, val, g) ->
  process load_flow_dataset (init_config cfg_name np tr va) paths fs
  = Done (<[p1 := Graph g]> (<[p0 := ComplexList (train ++ val)]> fs)).
Proof.
  intros H0 H1 Hload. unfold process. simpl. rewrite Hload.
  unfold getitem. rewrite H0, H1. done.
Qed.

Lemma init_Done (paths : list string) (fs : gmap string obj) name np tr va lg
    (p0 : string) o :
  paths !! 0%nat = Some p0 -> fs !! p0 = Some o ->
  (lg = true -> exists p1 g, paths !! 1%nat = Some p1 /\ fs !! p1 = Some g) ->
  tr < 2 ^ 63 -> va < 2 ^ 63 ->
  exists ds, FlowDataset.__init__ paths fs name np tr va lg = Done ds.
Proof.
  intros H0 Hp0 Hg Htr Hva. unfold FlowDataset.__init__, getitem, load, list_range.
  rewrite H0. simpl. rewrite Hp0. simpl.
  assert (forall A (x y : io A), (if decide (2 ^ 63 <= tr - 0) then x else y) = y) as ->.
  { intros A x y. destruct (decide _); [lia|done]. }
  assert (forall A (x y : io A), (if decide (2 ^ 63 <= tr + va - tr) then x else y) = y)
    as Hv.
  { intros A x y. destruct (decide _); [lia|done]. }
  destruct lg; simpl.
  - destruct Hg as (p1 & g & H1 & Hp1); [done|].
    rewrite H1. simpl. rewrite Hp1. simpl. rewrite Hv. eexists. done.
  - rewrite Hv. eexists. done.
Qed.


(** X16.  When the generator returns as many training and validation
    complexes as it is asked for, then, in a dataset constructed on what
    [process] wrote, the training ids select exactly the generated training
    complexes and the validation ids exactly the generated validation
    complexes, in order. *)
Theorem split_ids_select (cfg_name : string) (np tr va : Z) (paths : list string)
    (p0 p1 : string) (fs fs' : gmap string obj) lg ds train val g chains :
  paths !! 0%nat = Some p0 -> paths !! 1%nat = Some p1 -> p0 <> p1 ->
  load_flow_dataset np tr va = (train, val, g) ->
  Z.of_nat (length train) = tr -> Z.of_nat (length val) = va ->
  process load_flow_dataset (init_config cfg_name np tr va) paths fs = Done fs' ->
  FlowDataset.__init__ paths fs' cfg_name np tr va lg = Done ds ->
  _data_list ds = ComplexList chains ->
  (fun i => chains !! Z.to_nat i) <$> train_ids ds = Some <$> train /\
  (fun i => chains !! Z.to_nat i) <$> val_ids ds = Some <$> val.
Proof.
  intros H0 H1 Hne Hload Htr Hva Hproc Hinit Hdl.
  rewrite (process_Done cfg_name np tr va paths p0 p1 fs train val g H0 H1 Hload) in Hproc.
  injection Hproc as <-.
  apply init_inv in Hinit as ((q0 & Hq0 & Hread) & _ & _ & _ & -> & -> & _).
  assert (q0 = p0) as -> by congruence.
  rewrite lookup_insert_ne, lookup_insert_eq in Hread by done.
  assert (chains = train ++ val) as -> by congruence.
  split; apply list_eq; intros i; rewrite !list_lookup_fmap.
  - destruct (decide (i < length train)%nat) as [Hi|Hi].
    + rewrite lookup_range by lia. simpl.
      rewrite lookup_app_l by lia. rewrite Z.add_0_l, Nat2Z.id.
      by destruct (lookup_lt_is_Some_2 train i Hi) as [x ->].
    + rewrite (lookup_ge_None_2 (range _ _)) by (rewrite length_range; lia).
      by rewrite (lookup_ge_None_2 train) by lia.
  - destruct (decide (i < length val)%nat) as [Hi|Hi].
    + rewrite lookup_range by lia. simpl.
      rewrite lookup_app_r by lia.
      replace (Z.to_nat (tr + Z.of_nat i) - length train)%nat with i by lia.
      by destruct (lookup_lt_is_Some_2 val i Hi) as [x ->].
    + rewrite (lookup_ge_None_2 (range _ _)) by (rewrite length_range; lia).
      by rewrite (lookup_ge_None_2 val) by lia.
Qed.


(** X18.  The two processed file names of a dataset differ, are determined
    by the dataset's name and determine it, and the complex-list file of one
    dataset is never the graph file of another. *)
Theorem processed_file_names_distinct (c1 c2 : config) :
  NoDup (processed_file_names c1) /\
  (processed_file_names c1 = processed_file_names c2 <-> name c1 = name c2) /\
  processed_file_names c1 !! 0%nat <> processed_file_names c2 !! 1%nat.
Proof.
  assert (forall s1 s2 : string, s1 +:+ "_complex_list.pkl" <> s2 +:+ "_graph.pkl") as Hx.
  { intros s1 s2. apply (string_app_suffixes_differ _ _ _ _ 7); simpl; [lia|lia|].
    vm_compute. discriminate. }
  unfold processed_file_names. split_and!.
  - apply NoDup_cons. split; [|apply NoDup_singleton].
    intros Hin. apply list_elem_of_singleton in Hin. by apply Hx in Hin.
  - split; [|by intros ->]. intros [= H _]. by apply string_app_inv_tail in H.
  - intros [= H]. by apply Hx in H.
Qed.

End FlowExtras.

(** * Instances of the further properties *)

Lemma rev_mapping_round_trip_witness :
  exists r, Complex.rev_mapping [[0; 1]; [0; 2]; [1; 2]] = Ok r /\
    r !! [0; 2] = Some 1.
Proof.
  eexists. split; [vm_compute; reflexivity|].
  apply (rev_mapping_round_trip [[0; 1]; [0; 2]; [1; 2]] _ 1 [0; 2]).
  - apply (bool_decide_unpack _). vm_compute. exact I.
  - vm_compute; reflexivity.
  - reflexivity.
Defined.

Lemma shared_faces_symmetric_witness :
  exists c sf,
    Complex.__init__ tri_nodes tri_edges tri_triangles None = Ok c /\
    Complex.shared_faces c ≫= (.!! 1) = Some sf /\
    is_Some (sf !! 0%nat) /\ sf !! 0%nat = sf !! 1%nat.
Proof.
  eexists _, _. split; [vm_compute; reflexivity|]. split; [vm_compute; reflexivity|].
  eapply (shared_faces_symmetric tri_nodes tri_edges tri_triangles None _ 0 tri_edges
            all_pairs _ 0 1 0 1); vm_compute; reflexivity.
Defined.

Lemma shared_face_is_intersection_witness :
  exists c lo m_lo m_up nodes_a nodes_b face,
    Complex.__init__ tri_nodes tri_edges tri_triangles None = Ok c /\
    Complex.chains c !! 0 = Some lo /\
    Chain.mapping lo = Some m_lo /\ Chain.mapping tri_edges = Some m_up /\
    tensor_getitem m_up 0 = Ok nodes_a /\ tensor_getitem m_up 2 = Ok nodes_b /\
    0 <= 1 /\ m_lo !! Z.to_nat 1 = Some face /\
    face = sorted_intersection nodes_a nodes_b /\
    forall x, x ∈ face <-> x ∈ nodes_a /\ x ∈ nodes_b.
Proof.
  eexists.
  assert (Complex.__init__ tri_nodes tri_edges tri_triangles None = Ok ?[c]) as Hc
    by (vm_compute; reflexivity).
  destruct (shared_face_is_intersection tri_nodes tri_edges tri_triangles None _ 0
              tri_edges all_pairs [0; 0; 1; 1; 2; 2] 2 0 2 1 Hc)
    as (lo & m_lo & m_up & na & nb & face & H); try (vm_compute; reflexivity).
  exists lo, m_lo, m_up, na, nb, face. split; [exact Hc|exact H].
Defined.

Lemma shared_coface_is_upper_adj_witness :
  exists c up m_lo m_up nodes_a nodes_b adjs adjs_a coface,
    Complex.__init__ tri_nodes tri_edges tri_triangles None = Ok c /\
    Complex.chains c !! (0 + 1) = Some up /\
    Chain.mapping tri_nodes = Some m_lo /\ Chain.mapping up = Some m_up /\
    tensor_getitem m_lo 0 = Ok nodes_a /\ tensor_getitem m_lo 2 = Ok nodes_b /\
    Chain.upper_adjs tri_nodes = Some adjs /\ adjs !! nodes_a = Some adjs_a /\
    adjs_a !! nodes_b = Some coface /\
    0 <= 1 /\ m_up !! Z.to_nat 1 = Some coface.
Proof.
  eexists.
  assert (Complex.__init__ tri_nodes tri_edges tri_triangles None = Ok ?[c]) as Hc
    by (vm_compute; reflexivity).
  destruct (shared_coface_is_upper_adj tri_nodes tri_edges tri_triangles None _ 0
              tri_nodes all_pairs [0; 0; 1; 1; 2; 2] 2 0 2 1 Hc)
    as (up & m_lo & m_up & na & nb & adjs & adjs_a & coface & H);
    try (vm_compute; reflexivity).
  exists up, m_lo, m_up, na, nb, adjs, adjs_a, coface. split; [exact Hc|exact H].
Defined.

Lemma get_inputs_errors_witness :
  exists c,
    Complex.__init__ tri_nodes tri_edges_short_x tri_triangles None = Ok c /\
    Complex.get_inputs c 0 = Raise IndexError /\
    ~ (rows_cover tri_nodes /\ rows_cover tri_edges_short_x /\ rows_cover tri_triangles).
Proof.
  eexists.
  assert (Complex.__init__ tri_nodes tri_edges_short_x tri_triangles None = Ok ?[c]) as Hc
    by (vm_compute; reflexivity).
  split; [exact Hc|].
  match goal with
  | |- ?P /\ _ => assert P as He by (vm_compute; reflexivity)
  end.
  split; [exact He|].
  destruct (get_inputs_errors _ _ _ _ _ _ _ Hc He) as [[? _] | (_ & _ & H)]; done.
Defined.

Lemma missing_mapping_attribute_error_witness :
  Complex.__init__ default_nodes tri_edges tri_triangles None = Raise AttributeError.
Proof. apply missing_mapping_attribute_error. left. reflexivity. Defined.

Lemma empty_adjacency_constructs_witness :
  exists c, Complex.__init__ dot_nodes dot_edges no_triangles None = Ok c /\
    Complex.shared_faces c = Some (<[2 := []]> (<[1 := []]> ∅)) /\
    Complex.shared_cofaces c = Some (<[1 := []]> (<[0 := []]> ∅)).
Proof. apply empty_adjacency_constructs; done. Defined.

Lemma split_ids_disjoint_witness :
  exists ds,
    FlowDataset.__init__ flow_paths flow_cache "flow" 400 2 1 false = FlowDataset.Done ds /\
    (forall i, i ∈ FlowDataset.train_ids ds <-> 0 <= i < 2) /\
    (forall i, i ∈ FlowDataset.val_ids ds <-> 2 <= i < 2 + 1) /\
    NoDup (FlowDataset.train_ids ds ++ FlowDataset.val_ids ds) /\
    FlowDataset.test_ids ds = None.
Proof.
  eexists.
  assert (FlowDataset.__init__ flow_paths flow_cache "flow" 400 2 1 false
          = FlowDataset.Done ?[ds]) as H by (vm_compute; reflexivity).
  split; [exact H|]. exact (split_ids_disjoint _ _ _ _ _ _ _ _ H).
Defined.

Lemma split_ids_cover_witness :
  exists ds,
    FlowDataset.__init__ flow_paths flow_cache "flow" 400 2 1 false = FlowDataset.Done ds /\
    FlowDataset.train_ids ds ++ FlowDataset.val_ids ds = range 0 (2 + 1) /\
    length (FlowDataset.train_ids ds) = Z.to_nat 2 /\
    length (FlowDataset.val_ids ds) = Z.to_nat 1.
Proof.
  eexists.
  assert (FlowDataset.__init__ flow_paths flow_cache "flow" 400 2 1 false
          = FlowDataset.Done ?[ds]) as H by (vm_compute; reflexivity).
  split; [exact H|]. apply (split_ids_cover _ _ _ _ _ _ _ _ H); lia.
Defined.


Lemma split_ids_select_witness :
  exists fs' ds,
    FlowDataset.process flow_generator (FlowDataset.init_config "flow" 400 2 1)
      flow_paths ∅ = FlowDataset.Done fs' /\
    FlowDataset.__init__ flow_paths fs' "flow" 400 2 1 true = FlowDataset.Done ds /\
    (fun i => [0; 1; 100]%nat !! Z.to_nat i) <$> FlowDataset.train_ids ds
      = Some <$> [0; 1]%nat /\
    (fun i => [0; 1; 100]%nat !! Z.to_nat i) <$> FlowDataset.val_ids ds
      = Some <$> [100]%nat.
Proof.
  pose proof (process_Done flow_generator "flow" 400 2 1 flow_paths
                "processed/flow_complex_list.pkl" "processed/flow_graph.pkl" ∅
                [0; 1]%nat [100]%nat 400%nat eq_refl eq_refl eq_refl) as Hp.
  destruct (init_Done flow_paths
              (<["processed/flow_graph.pkl" := FlowDataset.Graph 400%nat]>
                 (<["processed/flow_complex_list.pkl" :=
                      FlowDataset.ComplexList ([0; 1] ++ [100])%nat]> ∅))
              "flow" 400 2 1 true "processed/flow_complex_list.pkl"
              (FlowDataset.ComplexList ([0; 1] ++ [100])%nat) eq_refl)
    as (ds & Hi).
  { by rewrite lookup_insert_ne, lookup_insert_eq. }
  { intros _. exists "processed/flow_graph.pkl", (FlowDataset.Graph 400%nat).
    split; [reflexivity|]. by rewrite lookup_insert_eq. }
  { reflexivity. }
  { reflexivity. }
  destruct (init_inv _ _ _ _ _ _ _ _ Hi) as ((q0 & Hq0 & Hread) & _).
  injection Hq0 as <-.
  rewrite lookup_insert_ne, lookup_insert_eq in Hread by done.
  injection Hread as Hdl.
  eexists _, ds. split; [exact Hp|]. split; [exact Hi|].
  eapply (split_ids_select flow_generator "flow" 400 2 1 flow_paths
           "processed/flow_complex_list.pkl" "processed/flow_graph.pkl" ∅ _ true ds
           [0; 1]%nat [100]%nat 400%nat [0; 1; 100]%nat); try reflexivity;
    try exact Hp; try exact Hi.
  - discriminate.
  - by rewrite <- Hdl.
Defined.
